(** * onWhisper: the whisper ticketing registry, moderation and logging

    A shallow embedding of [cogs/whisper.py], of the permission check and
    the [kick], [mute], [unban] and [purge] commands of
    [cogs/moderation.py], and of the channel cache and the listeners of
    [cogs/logging.py].

    The handlers are coroutines over three outside collaborators: the chat
    platform, the row store ([utils.db_manager]) and the per-server
    configuration ([utils.config]).  Every [await] on a collaborator is an
    external call that may raise.  The embedding runs a handler against a
    [script] of the collaborators' answers and keeps a journal of the calls
    it makes, so that the order of the side effects and the behaviour under
    a failing call can be stated. *)

From Stdlib Require Import ZArith List Bool Lia.
From stdpp Require Import base option list gmap.

Local Open Scope Z_scope.

(** ** Data model *)

(** One row of the [whispers] table. [closed_at] is NULL while the column
    has never been written. *)
Record whisper_row := WhisperRow {
  guild_id : Z;
  user_id : Z;
  thread_id : Z;
  created_at : Z;
  closed_at : option Z;
  is_open : bool
}.

(** The exceptions the handlers distinguish. In discord.py [Forbidden] and
    [NotFound] are subclasses of [HTTPException]; everything is an
    [Exception]. *)
Inductive exn := Forbidden | NotFound | HTTPException | OtherError.

Definition is_http_exception (e : exn) : bool :=
  match e with
  | Forbidden | NotFound | HTTPException => true
  | OtherError => false
  end.

Definition is_forbidden (e : exn) : bool :=
  match e with
  | Forbidden => true
  | _ => false
  end.

(** [member.guild_permissions], restricted to the bits the code reads. *)
Record permissions := Permissions {
  administrator : bool;
  manage_guild : bool;
  kick_members : bool;
  ban_members : bool
}.

(** [interaction.user] is a [discord.Member] inside a server and a plain
    [discord.User] otherwise; only a member has [guild_permissions]. *)
Inductive caller :=
| User (id : Z)
| Member (id : Z) (guild_permissions : permissions).

Definition caller_id (c : caller) : Z :=
  match c with
  | User i => i
  | Member i _ => i
  end.

Definition is_member (c : caller) : bool :=
  match c with
  | Member _ _ => true
  | User _ => false
  end.

(** [interaction.channel]: a thread, or anything else. *)
Inductive channel_ref :=
| Thread (id : Z)
| OtherChannel (id : Z).

Record interaction := Interaction {
  guild : option Z;
  user : caller;
  channel : channel_ref
}.

(** The texts sent back to the invoking user. *)
Inductive message :=
| ServerOnly
| WhisperDisabled
| AlreadyActive (thread : Z)
| SetupFailed
| CreateFailed
| WhisperCreated (thread : Z)
| CreateError
| ThreadOnly
| NotAWhisperThread
| CloseDenied
| WhisperClosed
| CloseError
| ModDenied
| BotCannotKick
| RoleHierarchy
| MemberKicked (dm_sent : bool)
| KickForbidden
| UnexpectedError.

Inductive cfg_key := whisper_channel | whisper_enabled | moderation_enabled.

Inductive embed := NewWhisperEmbed | ClosedWhisperEmbed.

(** The two statements handed to [db.execute]. *)
Inductive statement :=
| InsertWhisper (r : whisper_row)
| UpdateClosed (g t now : Z).

(** External calls, one constructor per awaited method. *)
Inductive call :=
| config_get (g : Z) (k : cfg_key)
| config_set (g : Z) (k : cfg_key)
| response_send_message (m : message)
| response_defer
| followup_send (m : message)
| create_text_channel (g c : Z)
| create_thread (chan u t : Z)
| thread_send (t : Z) (e : embed)
| db_execute (q : statement)
| db_fetchone (g t : Z)
| db_fetchall (g : Z)
| thread_edit (t : Z)
| user_send (u : Z)
| member_kick (u : Z)
| log_moderation_action (g u moderator : Z).

(** Writes to [self._active_whispers]. They are not awaited and cannot
    raise; they are journalled to fix their place among the calls. *)
Inductive cache_op :=
| cache_set (g u t : Z)
| cache_pop (g u : Z).

Inductive event :=
| Called (c : call) (raised : option exn)
| Cached (op : cache_op).

(** ** The world a handler runs in *)

Record world := World {
  whispers : list whisper_row;
  _active_whispers : gmap Z (gmap Z Z);
  cfg_whisper_channel : gmap Z Z;
  cfg_whisper_enabled : gmap Z bool;
  cfg_moderation_enabled : gmap Z bool;
  channels : gset (Z * Z);
  journal : list event
}.

Definition set_whispers (f : list whisper_row → list whisper_row) (w : world) : world :=
  World (f (whispers w)) (_active_whispers w) (cfg_whisper_channel w)
        (cfg_whisper_enabled w) (cfg_moderation_enabled w) (channels w) (journal w).

Definition set_active_whispers (f : gmap Z (gmap Z Z) → gmap Z (gmap Z Z)) (w : world) : world :=
  World (whispers w) (f (_active_whispers w)) (cfg_whisper_channel w)
        (cfg_whisper_enabled w) (cfg_moderation_enabled w) (channels w) (journal w).

Definition set_cfg_whisper_channel (f : gmap Z Z → gmap Z Z) (w : world) : world :=
  World (whispers w) (_active_whispers w) (f (cfg_whisper_channel w))
        (cfg_whisper_enabled w) (cfg_moderation_enabled w) (channels w) (journal w).

Definition set_channels (f : gset (Z * Z) → gset (Z * Z)) (w : world) : world :=
  World (whispers w) (_active_whispers w) (cfg_whisper_channel w)
        (cfg_whisper_enabled w) (cfg_moderation_enabled w) (f (channels w)) (journal w).

Definition set_journal (f : list event → list event) (w : world) : world :=
  World (whispers w) (_active_whispers w) (cfg_whisper_channel w)
        (cfg_whisper_enabled w) (cfg_moderation_enabled w) (channels w) (f (journal w)).

(** The collaborators' answers during one run. The call journalled at
    position [k] raises [raises k] when that is [Some _]; [snowflake k] is
    the identifier the platform gives to an object created there and
    [utcnow k] the clock read for a statement issued there. *)
Record script := Script {
  raises : nat → option exn;
  snowflake : nat → Z;
  utcnow : nat → Z
}.

(** ** A state and exception monad *)

Inductive result (A : Type) :=
| Returned (a : A)
| Raised (e : exn).
Arguments Returned {A} a.
Arguments Raised {A} e.

Definition M (A : Type) : Type := script → world → result A * world.

Definition ret {A} (a : A) : M A := λ _ w, (Returned a, w).

Definition bind {A B} (m : M A) (k : A → M B) : M B :=
  λ o w, match m o w with
         | (Returned a, w') => k a o w'
         | (Raised e, w') => (Raised e, w')
         end.

Definition raise {A} (e : exn) : M A := λ _ w, (Raised e, w).

(** [try: m except e: h e]; the state reached when [m] raised is kept. *)
Definition try_except {A} (m : M A) (h : exn → M A) : M A :=
  λ o w, match m o w with
         | (Returned a, w') => (Returned a, w')
         | (Raised e, w') => h e o w'
         end.

Definition get : M world := λ _ w, (Returned w, w).
Definition modify (f : world → world) : M unit := λ _ w, (Returned tt, f w).
Definition position : M nat := λ _ w, (Returned (length (journal w)), w).
Definition ask : M script := λ o w, (Returned o, w).

Notation "'let*' x ':=' m 'in' k" := (bind m (λ x, k))
  (at level 10, x pattern, m at level 100, k at level 200).
Notation "m ';;;' k" := (bind m (λ _, k))
  (at level 100, k at level 200, right associativity).

(** An awaited call: journalled with its outcome, raising when the script
    says so. *)
Definition await (c : call) : M unit :=
  λ o w, let k := length (journal w) in
         let w' := set_journal (λ j, j ++ [Called c (raises o k)]) w in
         match raises o k with
         | None => (Returned tt, w')
         | Some e => (Raised e, w')
         end.

Definition cached (op : cache_op) : M unit :=
  modify (set_journal (λ j, j ++ [Cached op])).

(** ** The collaborators *)

(** *** The row store *)

Definition same_thread (g t : Z) (r : whisper_row) : bool :=
  (guild_id r =? g) && (thread_id r =? t).

Definition open_in_guild (g : Z) (r : whisper_row) : bool :=
  (guild_id r =? g) && is_open r.

Definition close_row (now : Z) (r : whisper_row) : whisper_row :=
  WhisperRow (guild_id r) (user_id r) (thread_id r) (created_at r) (Some now) false.

(** Modelled from the spec: [utils/db_manager.py] is not part of the
    sources; the store is the [whispers] table of section 6 and the four
    operations are the SQL texts the handlers pass to it.
    [SELECT user_id FROM whispers WHERE guild_id = ? AND thread_id = ? AND
    is_open = 1], first row. *)
Definition select_open_owner (g t : Z) (rows : list whisper_row) : option Z :=
  user_id <$> List.find (λ r, same_thread g t r && is_open r) rows.

(** Modelled from the spec: the missing [utils/db_manager.py];
    [SELECT user_id, thread_id FROM whispers WHERE guild_id = ? AND
    is_open = 1]. *)
Definition select_open_in_guild (g : Z) (rows : list whisper_row) : list (Z * Z) :=
  List.map (λ r, (user_id r, thread_id r)) (List.filter (open_in_guild g) rows).

(** Modelled from the spec: the missing [utils/db_manager.py];
    [UPDATE whispers SET is_open = 0, closed_at = ? WHERE guild_id = ? AND
    thread_id = ?]. *)
Definition update_closed (g t now : Z) (rows : list whisper_row) : list whisper_row :=
  List.map (λ r, if same_thread g t r then close_row now r else r) rows.

(** Modelled from the spec: the missing [utils/db_manager.py];
    [INSERT INTO whispers (guild_id, user_id, thread_id, created_at,
    is_open) VALUES (?, ?, ?, ?, 1)]; [closed_at] stays NULL. *)
Definition insert_whisper (g u t now : Z) (rows : list whisper_row) : list whisper_row :=
  rows ++ [WhisperRow g u t now None true].

(** [await self.db.fetchone(...)]: the call, then the rows it selects. *)
Definition db_fetchone_owner (g t : Z) : M (option Z) :=
  await (db_fetchone g t) ;;;
  let* w := get in
  ret (select_open_owner g t (whispers w)).

(** [await self.db.fetchall(...)]. *)
Definition db_fetchall_open (g : Z) : M (list (Z * Z)) :=
  await (db_fetchall g) ;;;
  let* w := get in
  ret (select_open_in_guild g (whispers w)).

(** [await self.db.execute("INSERT ...", (g, u, t, datetime.utcnow(), 1))]:
    the table changes only when the call does not raise. *)
Definition db_execute_insert (g u t : Z) : M unit :=
  let* k := position in
  let* o := ask in
  let now := utcnow o k in
  await (db_execute (InsertWhisper (WhisperRow g u t now None true))) ;;;
  modify (set_whispers (insert_whisper g u t now)).

(** [await self.db.execute("UPDATE ...", (0, datetime.utcnow(), g, t))]. *)
Definition db_execute_update (g t : Z) : M unit :=
  let* k := position in
  let* o := ask in
  let now := utcnow o k in
  await (db_execute (UpdateClosed g t now)) ;;;
  modify (set_whispers (update_closed g t now)).

(** *** The configuration *)

(** Modelled from the spec: [utils/config.py] is not part of the sources;
    it is the key/value collaborator [get(server, key, default)],
    [set(server, key, value)] of section 9. *)
Definition config_get_whisper_enabled (g : Z) : M bool :=
  await (config_get g whisper_enabled) ;;;
  let* w := get in
  ret (default true (cfg_whisper_enabled w !! g)).

(** Modelled from the spec: the missing [utils/config.py]; the default of
    [get] is [None]. *)
Definition config_get_whisper_channel (g : Z) : M (option Z) :=
  await (config_get g whisper_channel) ;;;
  let* w := get in
  ret (cfg_whisper_channel w !! g).

(** Modelled from the spec: the missing [utils/config.py]. *)
Definition config_get_moderation_enabled (g : Z) : M bool :=
  await (config_get g moderation_enabled) ;;;
  let* w := get in
  ret (default true (cfg_moderation_enabled w !! g)).

(** Modelled from the spec: the missing [utils/config.py]. *)
Definition config_set_whisper_channel (g c : Z) : M unit :=
  await (config_set g whisper_channel) ;;;
  modify (set_cfg_whisper_channel (<[g := c]>)).

(** *** The platform *)

(** [guild.get_channel]: a look-up in the client's cache, not awaited. *)
Definition guild_get_channel (g c : Z) : M (option Z) :=
  let* w := get in
  ret (if bool_decide ((g, c) ∈ channels w) then Some c else None).

Definition guild_create_text_channel (g : Z) : M Z :=
  let* k := position in
  let* o := ask in
  let c := snowflake o k in
  await (create_text_channel g c) ;;;
  modify (set_channels (λ cs, {[ (g, c) ]} ∪ cs)) ;;;
  ret c.

Definition channel_create_thread (chan u : Z) : M Z :=
  let* k := position in
  let* o := ask in
  let t := snowflake o k in
  await (create_thread chan u t) ;;;
  ret t.

(** [interaction.user.guild_permissions]: an attribute only a member has. *)
Definition guild_permissions_of (c : caller) : M permissions :=
  match c with
  | Member _ p => ret p
  | User _ => raise OtherError
  end.

(** ** cogs/whisper.py *)

(** [if g in cache and cache[g] and u in cache[g]: cache[g][u]]: the test
    of [create_whisper]; an empty inner dict is falsy. *)
Definition existing_whisper (cache : gmap Z (gmap Z Z)) (g u : Z) : option Z :=
  match cache !! g with
  | Some aw => if bool_decide (aw = ∅) then None else aw !! u
  | None => None
  end.

(** [if g not in cache: cache[g] = {}] then [cache[g][u] = t]. *)
Definition remember_whisper (g u t : Z) (cache : gmap Z (gmap Z Z)) : gmap Z (gmap Z Z) :=
  <[g := <[u := t]> (default ∅ (cache !! g))]> cache.

(** [if g in cache: cache[g].pop(u, None)]. *)
Definition forget_whisper (g u : Z) (cache : gmap Z (gmap Z Z)) : gmap Z (gmap Z Z) :=
  match cache !! g with
  | Some aw => <[g := delete u aw]> cache
  | None => cache
  end.

(** [{w['user_id']: w['thread_id'] for w in whispers}]: a later row
    overwrites an earlier one with the same user. *)
Definition dict_of_rows (ws : list (Z * Z)) : gmap Z Z :=
  fold_left (λ d w, <[w.1 := w.2]> d) ws ∅.

(** The registry's read: [cache[g][u]] when both keys are present. *)
Definition lookup (w : world) (g u : Z) : option Z :=
  _active_whispers w !! g ≫= (λ aw, aw !! u).

Definition _setup_whisper_channel (g : Z) : M (option Z) :=
  try_except
    (let* whisper_channel_id := config_get_whisper_channel g in
     let* _ := config_get_whisper_enabled g in
     let* known :=
       match whisper_channel_id with
       | Some c => guild_get_channel g c
       | None => ret None
       end in
     match known with
     | Some c => ret (Some c)
     | None =>
       let* c := guild_create_text_channel g in
       config_set_whisper_channel g c ;;;
       ret (Some c)
     end)
    (λ _, ret None).

Definition _create_whisper_thread (chan g u : Z) : M (option Z) :=
  try_except
    (let* t := channel_create_thread chan u in
     await (thread_send t NewWhisperEmbed) ;;;
     db_execute_insert g u t ;;;
     cached (cache_set g u t) ;;;
     modify (set_active_whispers (remember_whisper g u t)) ;;;
     ret (Some t))
    (λ _, ret None).

Definition create_whisper (i : interaction) : M unit :=
  match guild i with
  | None => await (response_send_message ServerOnly)
  | Some g =>
    try_except
      (let* enabled := config_get_whisper_enabled g in
       if negb enabled then await (response_send_message WhisperDisabled)
       else
         let* w := get in
         match existing_whisper (_active_whispers w) g (caller_id (user i)) with
         | Some t => await (response_send_message (AlreadyActive t))
         | None =>
           await response_defer ;;;
           let* chan := _setup_whisper_channel g in
           match chan with
           | None => await (followup_send SetupFailed)
           | Some c =>
             let* thread := _create_whisper_thread c g (caller_id (user i)) in
             match thread with
             | None => await (followup_send CreateFailed)
             | Some t => await (followup_send (WhisperCreated t))
             end
           end
         end)
      (λ _, await (followup_send CreateError))
  end.

(** The registry is touched only [if interaction.guild.id in
    self._active_whispers]; the pop is journalled where the code makes
    it. *)
Definition close_whisper (i : interaction) : M unit :=
  match guild i, channel i with
  | Some g, Thread t =>
    try_except
      (let* whisper := db_fetchone_owner g t in
       match whisper with
       | None => await (response_send_message NotAWhisperThread)
       | Some owner =>
         let* perms := guild_permissions_of (user i) in
         let is_staff := administrator perms in
         if negb (is_staff || (caller_id (user i) =? owner))
         then await (response_send_message CloseDenied)
         else
           await (thread_send t ClosedWhisperEmbed) ;;;
           db_execute_update g t ;;;
           let* w := get in
           match _active_whispers w !! g with
           | Some _ =>
             cached (cache_pop g owner) ;;;
             modify (set_active_whispers (forget_whisper g owner))
           | None => ret tt
           end ;;;
           await (thread_edit t) ;;;
           await (response_send_message WhisperClosed)
       end)
      (λ _, await (response_send_message CloseError))
  | _, _ => await (response_send_message ThreadOnly)
  end.

(** [cog_load], over [self.bot.guilds]. *)
Fixpoint cog_load (guilds : list Z) : M unit :=
  match guilds with
  | [] => ret tt
  | g :: rest =>
    try_except
      (let* ws := db_fetchall_open g in
       match ws with
       | [] => ret tt
       | _ :: _ => modify (set_active_whispers (<[g := dict_of_rows ws]>))
       end)
      (λ _, ret tt) ;;;
    cog_load rest
  end.

(** ** cogs/moderation.py *)

Definition _check_mod_permissions (i : interaction) : M bool :=
  match guild i, user i with
  | Some g, Member _ p =>
    if administrator p || manage_guild p then ret true
    else
      let* mod_enabled := config_get_moderation_enabled g in
      if negb mod_enabled then ret false
      else ret (kick_members p || ban_members p)
  | _, _ => ret false
  end.

(** Catches [discord.Forbidden] and [discord.HTTPException] only. *)
Definition _send_user_dm (u : Z) : M bool :=
  try_except
    (await (user_send u) ;;; ret true)
    (λ e, if is_http_exception e then ret false else raise e).

(** What [kick] reads of [interaction.guild.me] and of its target. *)
Record kick_context := KickContext {
  me_kick_members : bool;
  me_top_role : Z;
  member_id : Z;
  member_top_role : Z
}.

Definition kick (i : interaction) (k : kick_context) : M unit :=
  let* allowed := _check_mod_permissions i in
  if negb allowed then await (response_send_message ModDenied)
  else
    match guild i with
    | None => raise OtherError
    | Some g =>
      if negb (me_kick_members k) then await (response_send_message BotCannotKick)
      else if me_top_role k <=? member_top_role k
      then await (response_send_message RoleHierarchy)
      else
        try_except
          (let* dm_sent := _send_user_dm (member_id k) in
           await (member_kick (member_id k)) ;;;
           await (log_moderation_action g (member_id k) (caller_id (user i))) ;;;
           await (response_send_message (MemberKicked dm_sent)))
          (λ e, if is_forbidden e
                then await (response_send_message KickForbidden)
                else await (response_send_message UnexpectedError))
    end.

(** One invocation of a handler: it starts with an empty journal, so that
    the positions of a script count the calls of this invocation. *)
Definition run {A} (m : M A) (o : script) (w : world) : result A * world :=
  m o (set_journal (λ _, []) w).

(** The script in which no call raises. *)
Definition calm (o : script) : Prop := ∀ k, raises o k = None.

(** The messages that reached the user: the journalled sends that did not
    raise. *)
Definition delivered (ev : event) : option message :=
  match ev with
  | Called (response_send_message m) None => Some m
  | Called (followup_send m) None => Some m
  | _ => None
  end.

Definition replies (j : list event) : list message := omap delivered j.

(** What a handler may change besides the journal. *)
Definition durable (w : world) : world := set_journal (λ _, []) w.

Definition is_administrator (c : caller) : bool :=
  match c with
  | Member _ p => administrator p
  | User _ => false
  end.

(** Calls that change the platform thread or the store. *)
Definition mutating (ev : event) : bool :=
  match ev with
  | Called (thread_send _ _) _ => true
  | Called (thread_edit _) _ => true
  | Called (create_thread _ _ _) _ => true
  | Called (create_text_channel _ _) _ => true
  | Called (db_execute _) _ => true
  | Called (config_set _ _) _ => true
  | Cached _ => true
  | _ => false
  end.

(** ** The registry against the store *)

(** The registry's read, on the mapping itself. *)
Definition entry (cache : gmap Z (gmap Z Z)) (g u : Z) : option Z :=
  cache !! g ≫= (λ aw, aw !! u).

(** An open row of user [u] in guild [g]. *)
Definition open_for (g u : Z) (r : whisper_row) : bool :=
  (guild_id r =? g) && (user_id r =? u) && is_open r.

(** The number of open rows of a pair. *)
Definition open_count (g u : Z) (rows : list whisper_row) : nat :=
  length (List.filter (open_for g u) rows).

(** At most one open row per user and server. *)
Definition single_open (rows : list whisper_row) : Prop :=
  ∀ g u, (open_count g u rows ≤ 1)%nat.

(** An open thread of a server belongs to one user. *)
Definition single_owner (rows : list whisper_row) : Prop :=
  ∀ r1 r2, r1 ∈ rows → r2 ∈ rows → is_open r1 = true → is_open r2 = true →
           guild_id r1 = guild_id r2 → thread_id r1 = thread_id r2 →
           user_id r1 = user_id r2.

(** The registry holds [t] for a pair exactly when the store has an open
    row of that pair with thread [t]. *)
Definition mirrors (cache : gmap Z (gmap Z Z)) (rows : list whisper_row) : Prop :=
  ∀ g u t, entry cache g u = Some t ↔
           ∃ r, r ∈ rows ∧ open_for g u r = true ∧ thread_id r = t.

Record coherent (w : world) : Prop := Coherent {
  coh_mirrors : mirrors (_active_whispers w) (whispers w);
  coh_single_open : single_open (whispers w);
  coh_single_owner : single_owner (whispers w)
}.

(** The platform never hands out the identifier of a recorded thread. *)
Definition fresh_threads (o : script) (rows : list whisper_row) : Prop :=
  ∀ k r, r ∈ rows → thread_id r ≠ snowflake o k.

(** The thread of the last open row of a pair, in table order. *)
Definition last_open_thread (g u : Z) (rows : list whisper_row) : option Z :=
  thread_id <$> last (List.filter (open_for g u) rows).

(** What [cog_load] does to the registry when every fetch goes through. *)
Fixpoint loaded (guilds : list Z) (rows : list whisper_row)
    (cache : gmap Z (gmap Z Z)) : gmap Z (gmap Z Z) :=
  match guilds with
  | [] => cache
  | g :: rest =>
    loaded rest rows
      match select_open_in_guild g rows with
      | [] => cache
      | ws => <[g := dict_of_rows ws]> cache
      end
  end.

(** The worlds of a process that loaded its registry, empty as [__init__]
    leaves it, from a store holding at most one open row per user and
    server and one owner per open thread, every fetch going through and
    every open row belonging to a connected server, and then ran
    [create_whisper] and [close_whisper] one after the other, under
    arbitrary scripts in which the platform creates threads with fresh
    identifiers. *)
Inductive reachable : world → Prop :=
| reachable_load (w : world) (guilds : list Z) (o : script) :
    _active_whispers w = ∅ →
    single_open (whispers w) → single_owner (whispers w) →
    (∀ r, r ∈ whispers w → is_open r = true → guild_id r ∈ guilds) →
    calm o →
    reachable (run (cog_load guilds) o w).2
| reachable_open (w : world) (i : interaction) (o : script) :
    reachable w → fresh_threads o (whispers w) →
    reachable (run (create_whisper i) o w).2
| reachable_close (w : world) (i : interaction) (o : script) :
    reachable w →
    reachable (run (close_whisper i) o w).2.

(** Every open row has a registry entry for its user, whichever thread
    the entry holds. *)
Definition covers (cache : gmap Z (gmap Z Z)) (rows : list whisper_row) : Prop :=
  ∀ r, r ∈ rows → is_open r = true →
       is_Some (entry cache (guild_id r) (user_id r)).

(** The worlds of a process that loaded its registry, whatever it held,
    from a store holding at most one open row per user and server, every
    fetch going through and every open row belonging to a connected server,
    and then ran [create_whisper] and [close_whisper] one after the other
    under arbitrary scripts: threads may be shared between users and the
    platform may hand out an identifier twice. *)
Inductive running : world → Prop :=
| running_load (w : world) (guilds : list Z) (o : script) :
    single_open (whispers w) →
    (∀ r, r ∈ whispers w → is_open r = true → guild_id r ∈ guilds) →
    calm o →
    running (run (cog_load guilds) o w).2
| running_open (w : world) (i : interaction) (o : script) :
    running w →
    running (run (create_whisper i) o w).2
| running_close (w : world) (i : interaction) (o : script) :
    running w →
    running (run (close_whisper i) o w).2.

(** ** Journals *)

Definition is_cached (ev : event) : bool :=
  match ev with
  | Cached _ => true
  | _ => false
  end.

Definition failed_write (ev : event) : bool :=
  match ev with
  | Called (db_execute _) (Some _) => true
  | _ => false
  end.

(** The statement a registry write belongs to. *)
Definition writes_for (op : cache_op) (q : statement) : bool :=
  match op, q with
  | cache_set g u t, InsertWhisper r =>
      (guild_id r =? g) && (user_id r =? u) && (thread_id r =? t) && is_open r
  | cache_pop g _, UpdateClosed g' _ _ => g' =? g
  | _, _ => false
  end.

(** Every registry write of the journal comes right after the statement it
    belongs to, and that statement did not raise; [prev] is the statement
    that went through just before [j], if any. *)
Fixpoint store_first (prev : option statement) (j : list event) : bool :=
  match j with
  | [] => true
  | Cached op :: j' =>
      match prev with
      | Some q => writes_for op q
      | None => false
      end && store_first None j'
  | Called (db_execute q) None :: j' => store_first (Some q) j'
  | Called _ _ :: j' => store_first None j'
  end.

(** ** Worked inputs *)

(** A script in which every call goes through. *)
Definition quiet : script :=
  Script (λ _, None) (λ k, 500 + Z.of_nat k) (λ k, 9000 + Z.of_nat k).

(** A script whose call at position [n] raises. *)
Definition failing_at (n : nat) (e : exn) : script :=
  Script (λ k, if (k =? n)%nat then Some e else None)
         (λ k, 500 + Z.of_nat k) (λ k, 9000 + Z.of_nat k).

Definition no_permissions : permissions := Permissions false false false false.
Definition kick_only : permissions := Permissions false false true false.
Definition admin_only : permissions := Permissions true false false false.

(** User 7 of server 1 owns the open thread 50; the process has not loaded
    its registry yet. *)
Definition at_boot : world :=
  World [WhisperRow 1 7 50 10 None true; WhisperRow 1 8 40 5 (Some 6) false]
        ∅ ∅ ∅ ∅ ∅ [].

(** The same store once loaded. *)
Definition loaded_world : world := (run (cog_load [1]) quiet at_boot).2.

(** The same, the whisper feature switched off in server 1. *)
Definition switched_off : world :=
  World (whispers loaded_world) (_active_whispers loaded_world) ∅
        {[ 1 := false ]} ∅ ∅ [].

(** A registry still holding an entry whose row has been closed. *)
Definition stale : world :=
  World [WhisperRow 1 7 50 10 (Some 20) false] {[ 1 := {[ 7 := 50 ]} ]} ∅ ∅ ∅ ∅ [].

(** An open row of a server the client is not connected to. *)
Definition elsewhere : world :=
  World [WhisperRow 2 7 60 10 None true] ∅ ∅ ∅ ∅ ∅ [].

(** Two open rows for user 7 of server 1, as two overlapping opens leave
    them. *)
Definition twice_open : world :=
  World [WhisperRow 1 7 50 10 None true; WhisperRow 1 7 51 11 None true]
        ∅ ∅ ∅ ∅ ∅ [].

Definition from_user_7 : interaction :=
  Interaction (Some 1) (Member 7 no_permissions) (OtherChannel 3).

Definition from_user_9 : interaction :=
  Interaction (Some 1) (Member 9 no_permissions) (OtherChannel 3).

Definition in_thread_50 (c : caller) : interaction :=
  Interaction (Some 1) c (Thread 50).

(** User 9 opens a thread, then user 7 closes theirs. *)
Definition after_session : world :=
  (run (close_whisper (in_thread_50 (Member 7 no_permissions))) quiet
       (run (create_whisper from_user_9) quiet loaded_world).2).2.

(** ** Reading a journal *)

(** [member.kick] was called. *)
Definition kick_called (ev : event) : bool :=
  match ev with
  | Called (member_kick _) _ => true
  | _ => false
  end.

(** [member.kick] went through. *)
Definition kick_done (ev : event) : bool :=
  match ev with
  | Called (member_kick _) None => true
  | _ => false
  end.

(** [db.log_moderation_action] was called. *)
Definition log_called (ev : event) : bool :=
  match ev with
  | Called (log_moderation_action _ _ _) _ => true
  | _ => false
  end.

(** [db.log_moderation_action] went through. *)
Definition log_done (ev : event) : bool :=
  match ev with
  | Called (log_moderation_action _ _ _) None => true
  | _ => false
  end.

(** The direct message reached the member. *)
Definition dm_done (ev : event) : bool :=
  match ev with
  | Called (user_send _) None => true
  | _ => false
  end.

(** The moderator was told that the member has been kicked. *)
Definition told_kicked (ev : event) : bool :=
  match ev with
  | Called (response_send_message (MemberKicked _)) None => true
  | _ => false
  end.

(** The moderator was told that the member has been kicked and that the
    direct message was sent. *)
Definition told_dm_sent (ev : event) : bool :=
  match ev with
  | Called (response_send_message (MemberKicked true)) None => true
  | _ => false
  end.


(** The INSERT of a whisper row went through. *)
Definition insert_done (ev : event) : bool :=
  match ev with
  | Called (db_execute (InsertWhisper _)) None => true
  | _ => false
  end.

(** The UPDATE closing a thread went through. *)
Definition update_done (ev : event) : bool :=
  match ev with
  | Called (db_execute (UpdateClosed _ _ _)) None => true
  | _ => false
  end.

(** A call that creates something on the platform. *)
Definition creates (ev : event) : bool :=
  match ev with
  | Called (create_text_channel _ _) _ => true
  | Called (create_thread _ _ _) _ => true
  | _ => false
  end.

(** What a handler may not change of a stored row. *)
Definition same_identity (r r' : whisper_row) : Prop :=
  guild_id r' = guild_id r ∧ user_id r' = user_id r
  ∧ thread_id r' = thread_id r ∧ created_at r' = created_at r.

(** [closed_at] is NULL exactly on the open rows. *)
Definition closed_at_matches (rows : list whisper_row) : Prop :=
  ∀ r, r ∈ rows → (is_open r = true ↔ closed_at r = None).


(** What [cog_load] does to the registry under a script, its first fetch
    being the call at position [k]: a server whose fetch raises is skipped. *)
Fixpoint loaded_under (o : script) (k : nat) (guilds : list Z)
    (rows : list whisper_row) (cache : gmap Z (gmap Z Z)) : gmap Z (gmap Z Z) :=
  match guilds with
  | [] => cache
  | g :: rest =>
    loaded_under o (S k) rest rows
      match raises o k with
      | Some _ => cache
      | None =>
        match select_open_in_guild g rows with
        | [] => cache
        | ws => <[g := dict_of_rows ws]> cache
        end
      end
  end.


(** ** Cogs over other collaborators *)

(** The same state and exception monad, over any state and any journal, for
    the cogs whose collaborators are not those of the whisper registry. *)
Module Cog.

Definition M (S E A : Type) : Type := script → S * list E → result A * (S * list E).

Definition ret {S E A} (a : A) : M S E A := λ _ s, (Returned a, s).

Definition bind {S E A B} (m : M S E A) (k : A → M S E B) : M S E B :=
  λ o s, match m o s with
         | (Returned a, s') => k a o s'
         | (Raised e, s') => (Raised e, s')
         end.

Definition raise {S E A} (e : exn) : M S E A := λ _ s, (Raised e, s).

Definition try_except {S E A} (m : M S E A) (h : exn → M S E A) : M S E A :=
  λ o s, match m o s with
         | (Returned a, s') => (Returned a, s')
         | (Raised e, s') => h e o s'
         end.

Definition get {S E} : M S E S := λ _ s, (Returned s.1, s).

Definition modify {S E} (f : S → S) : M S E unit := λ _ s, (Returned tt, (f s.1, s.2)).

(** A journal entry for something that is not awaited. *)
Definition note {S E} (ev : E) : M S E unit := λ _ s, (Returned tt, (s.1, s.2 ++ [ev])).

(** An awaited call, journalled by [ev] with its outcome. *)
Definition await {S E} (ev : option exn → E) : M S E unit :=
  λ o s, let r := raises o (length s.2) in
         (match r with
          | None => Returned tt
          | Some e => Raised e
          end, (s.1, s.2 ++ [ev r])).

Definition run {S E A} (m : M S E A) (o : script) (s : S) : result A * (S * list E) :=
  m o (s, []).

(** The script as seen from position [n]. *)
Definition shift (n : nat) (o : script) : script :=
  Script (λ k, raises o (n + k)) (λ k, snowflake o (n + k)) (λ k, utcnow o (n + k)).

(** A computation of the whisper cog inside another cog over the same
    world: its calls take the next positions of the journal. *)
Definition lift {E A} (inj : event → E)
    (m : script → world → result A * world) : M world E A :=
  λ o s, match m (shift (length s.2) o) (set_journal (λ _, []) s.1) with
         | (r, w') =>
           (r, (set_journal (λ _, journal s.1) w', s.2 ++ List.map inj (journal w')))
         end.

(** [datetime.utcnow()], read at the current position. *)
Definition now {S E} : M S E Z := λ o s, (Returned (utcnow o (length s.2)), s).

End Cog.

Notation "'let+' x ':=' m 'in' k" := (Cog.bind m (λ x, k))
  (at level 10, x pattern, m at level 100, k at level 200).
Notation "m ';;+' k" := (Cog.bind m (λ _, k))
  (at level 100, k at level 200, right associativity).

From Stdlib Require String Ascii.
Import String.StringSyntax.

(** Text as Python has it: a sequence of code points. *)
Definition text : Type := list Z.

(** A literal of the source. *)
Definition lit (s : String.string) : text :=
  List.map (λ c, Z.of_nat (Ascii.nat_of_ascii c)) (String.list_ascii_of_string s).
Arguments lit s%_string_scope.

(** The new-line character. *)
Definition nl : text := [10].

(** [sep.join(parts)]. *)
Fixpoint join (sep : text) (parts : list text) : text :=
  match parts with
  | [] => []
  | [p] => p
  | p :: rest => p ++ sep ++ join sep rest
  end.

(** ** cogs/logging.py *)

Module Logging.

(** The ['logs_config'] entry of a server's data. *)
Record logs_config := LogsConfig {
  enabled : option bool;
  channel_id : option Z
}.

Inductive permission_name :=
| view_channel | send_messages | embed_links | attach_files | read_message_history.

(** [channel.permissions_for(guild.me)]. *)
Definition channel_permissions : Type := permission_name → bool.

Inductive title :=
| MemberJoined | MemberLeft | MessageDeleted | MessageEdited
| ChannelCreated | ChannelDeleted | ChannelRenamed.

Inductive embed :=
| MissingPermissions (c : Z)
| LoggingChannelSet (c : Z)
| LoggingActive
| ErrorEmbed
| PermissionError (c : Z) (missing : list permission_name)
| LogEntry (t : title) (description : text).

Inductive call :=
| wait_until_ready
| ensure_connection
| get_guild_data (g : Z)
| update_guild_data (g c : Z)
| channel_send (c : Z) (e : embed)
| ctx_send (e : embed).

Inductive event :=
| Did (c : call) (raised : option exn)
| Printed (loaded failed : nat).

(** The cog, the stored server data and what the client knows of the
    platform. *)
Record cog := Cog {
  log_channels : gmap Z Z;
  guild_data : gmap Z (option logs_config);
  live_channels : gset Z;
  permissions_for : Z → channel_permissions;
  connected : bool
}.

Record guild := Guild {
  gid : Z;
  system_channel : option Z;
  text_channels : list Z
}.

Definition set_log_channels (f : gmap Z Z → gmap Z Z) (s : cog) : cog :=
  Cog (f (log_channels s)) (guild_data s) (live_channels s) (permissions_for s)
      (connected s).

Definition set_guild_data
    (f : gmap Z (option logs_config) → gmap Z (option logs_config)) (s : cog) : cog :=
  Cog (log_channels s) (f (guild_data s)) (live_channels s) (permissions_for s)
      (connected s).

Definition M (A : Type) : Type := Cog.M cog event A.

(** [self.bot.get_channel]: a look-up in the client's cache. *)
Definition bot_get_channel (c : Z) : M (option Z) :=
  let+ s := Cog.get in
  Cog.ret (if bool_decide (c ∈ live_channels s) then Some c else None).

(** Modelled from the spec: [utils/db_manager.py] is not part of the
    sources; [get_guild_data] answers with the stored data of the server,
    or nothing. *)
Definition db_get_guild_data (g : Z) : M (option (option logs_config)) :=
  Cog.await (Did (get_guild_data g)) ;;+
  let+ s := Cog.get in
  Cog.ret (guild_data s !! g).

(** Modelled from the spec: the missing [utils/db_manager.py]; the update
    at path [['logs_config']] stores the channel with [enabled] set. *)
Definition db_update_guild_data (g c : Z) : M unit :=
  Cog.await (Did (update_guild_data g c)) ;;+
  Cog.modify (set_guild_data (<[g := Some (LogsConfig (Some true) (Some c))]>)).

(** Modelled from the spec: the missing [utils/db_manager.py]. *)
Definition db_ensure_connection : M bool :=
  Cog.await (Did ensure_connection) ;;+
  let+ s := Cog.get in
  Cog.ret (connected s).

(** [guild_data.get('logs_config', {})]. *)
Definition logs_config_of (data : option logs_config) : logs_config :=
  default (LogsConfig None None) data.

(** [logs_config.get('enabled', True)], as a condition. *)
Definition logging_enabled (cfg : logs_config) : bool := default true (enabled cfg).

(** [logs_config.get('channel_id')], as a condition: absent and zero are
    falsy. *)
Definition configured_channel (cfg : logs_config) : option Z :=
  match channel_id cfg with
  | Some c => if c =? 0 then None else Some c
  | None => None
  end.

Inductive loading := Skipped | Loaded | Failed.

(** The body of the loop of [load_log_channels], for one server. *)
Definition load_guild (g : Z) : M loading :=
  Cog.try_except
    (let+ data := db_get_guild_data g in
     match data with
     | None => Cog.ret Skipped
     | Some data =>
       let cfg := logs_config_of data in
       match (if logging_enabled cfg then configured_channel cfg else None) with
       | Some c =>
         let+ channel := bot_get_channel c in
         match channel with
         | Some _ =>
           Cog.modify (set_log_channels (<[g := c]>)) ;;+
           Cog.ret Loaded
         | None => Cog.ret Failed
         end
       | None => Cog.ret Skipped
       end
     end)
    (λ _, Cog.ret Failed).

Fixpoint load_guilds (guilds : list Z) (loaded failed : nat) : M (nat * nat) :=
  match guilds with
  | [] => Cog.ret (loaded, failed)
  | g :: rest =>
    let+ r := load_guild g in
    match r with
    | Skipped => load_guilds rest loaded failed
    | Loaded => load_guilds rest (S loaded) failed
    | Failed => load_guilds rest loaded (S failed)
    end
  end.

(** [load_log_channels], over [self.bot.guilds]. *)
Definition load_log_channels (guilds : list Z) : M unit :=
  Cog.try_except
    (Cog.await (Did wait_until_ready) ;;+
     let+ ok := db_ensure_connection in
     if negb ok then Cog.ret tt
     else
       let+ counts := load_guilds guilds 0 0 in
       Cog.note (Printed counts.1 counts.2))
    (λ _, Cog.ret tt).

Definition get_log_channel (g : Z) : M (option Z) :=
  Cog.try_except
    (let+ s := Cog.get in
     let+ cached :=
       match log_channels s !! g with
       | Some c => bot_get_channel c
       | None => Cog.ret None
       end in
     match cached with
     | Some c => Cog.ret (Some c)
     | None =>
       let+ data := db_get_guild_data g in
       match data with
       | None => Cog.ret None
       | Some data =>
         let cfg := logs_config_of data in
         if negb (logging_enabled cfg) then Cog.ret None
         else
           match configured_channel cfg with
           | None => Cog.ret None
           | Some c =>
             let+ channel := bot_get_channel c in
             match channel with
             | Some _ =>
               Cog.modify (set_log_channels (<[g := c]>)) ;;+
               Cog.ret channel
             | None => Cog.ret channel
             end
           end
       end
     end)
    (λ _, Cog.ret None).

(** [set_log_channel(ctx, channel)], for the server [g] of [ctx]. *)
Definition set_log_channel (g c : Z) : M unit :=
  Cog.try_except
    (let+ s := Cog.get in
     let perms := permissions_for s c in
     if negb (perms send_messages && perms embed_links)
     then Cog.await (Did (ctx_send (MissingPermissions c)))
     else
       db_update_guild_data g c ;;+
       Cog.modify (set_log_channels (<[g := c]>)) ;;+
       Cog.await (Did (ctx_send (LoggingChannelSet c))) ;;+
       Cog.await (Did (channel_send c LoggingActive)))
    (λ _, Cog.await (Did (ctx_send ErrorEmbed))).

Definition required_permissions : list permission_name :=
  [view_channel; send_messages; embed_links; attach_files; read_message_history].

(** [next((c for c in guild.text_channels if
    c.permissions_for(guild.me).send_messages), None)]. *)
Definition first_sendable (perms : Z → channel_permissions) (cs : list Z) : option Z :=
  List.find (λ c, perms c send_messages) cs.

(** [guild] is [None] where the caller has no server to give, as for a
    direct message; [guild.id] then raises inside the [try]. *)
Definition log_to_channel (guild : option guild) (t : title) (description : text) : M unit :=
  Cog.try_except
    (let+ g :=
       match guild with
       | Some g => Cog.ret g
       | None => Cog.raise OtherError
       end in
     let+ channel := get_log_channel (gid g) in
     match channel with
     | None => Cog.ret tt
     | Some c =>
       let+ s := Cog.get in
       let channel_perms := permissions_for s c in
       let missing_perms :=
         List.filter (λ perm, negb (channel_perms perm)) required_permissions in
       match missing_perms with
       | _ :: _ =>
         let notify_channel :=
           match system_channel g with
           | Some n => Some n
           | None => first_sendable (permissions_for s) (text_channels g)
           end in
         match notify_channel with
         | Some n =>
           Cog.try_except
             (Cog.await (Did (channel_send n (PermissionError c missing_perms))))
             (λ _, Cog.ret tt)
         | None => Cog.ret tt
         end
       | [] => Cog.await (Did (channel_send c (LogEntry t description)))
       end
     end)
    (λ _, Cog.ret tt).

(** [s[:1000] + "..." if len(s) > 1000 else s]. *)
Definition clip_content (s : text) : text :=
  if (1000 <? length s)%nat then take 1000 s ++ lit "..." else s.

(** The attachment list of [on_message_delete]: joined by new lines, cut
    to 997 characters and an ellipsis when longer than 1000. *)
Definition clip_attachments (urls : list text) : text :=
  let attachment_list := join nl urls in
  if (1000 <? length attachment_list)%nat
  then take 997 attachment_list ++ lit "..."
  else attachment_list.

(** What the listeners read of a message. [channel_mention] is
    [message.channel.mention]: the channels of a server have one, a private
    channel has none. *)
Record message := Message {
  author_bot : bool;
  author_mention : text;
  channel_mention : option text;
  jump_url : text;
  content : text;
  attachments : list text;
  message_guild : option guild
}.

(** Reading [message.channel.mention]: an [AttributeError] where there is
    none. The listeners read it before their call of [log_to_channel],
    outside any [try]. *)
Definition mention_of (m : message) : M text :=
  match channel_mention m with
  | Some mention => Cog.ret mention
  | None => Cog.raise OtherError
  end.

(** The description of a deleted message, [mention] being that of its
    channel. *)
Definition deleted_description (m : message) (mention : text) : text :=
  lit "Author: " ++ author_mention m ++ nl
  ++ lit "Channel: " ++ mention ++ nl
  ++ nl
  ++ match content m with
     | [] => []
     | _ :: _ => lit "Content:" ++ nl ++ clip_content (content m) ++ nl ++ nl
     end
  ++ match attachments m with
     | [] => []
     | _ :: _ => lit "Attachments:" ++ nl ++ clip_attachments (attachments m)
     end.

Definition on_message_delete (m : message) : M unit :=
  if author_bot m then Cog.ret tt
  else
    let+ mention := mention_of m in
    log_to_channel (message_guild m) MessageDeleted (deleted_description m mention).

(** The description of an edited message, [mention] being that of the
    channel of [before]. *)
Definition edited_description (before after : message) (mention : text) : text :=
  lit "Author: " ++ author_mention before ++ nl
  ++ lit "Channel: " ++ mention ++ nl
  ++ lit "[Jump to Message](" ++ jump_url after ++ lit ")" ++ nl
  ++ nl
  ++ lit "Before:" ++ nl ++ clip_content (content before) ++ nl
  ++ nl
  ++ lit "After:" ++ nl ++ clip_content (content after).

Definition on_message_edit (before after : message) : M unit :=
  if author_bot before || bool_decide (content before = content after)
  then Cog.ret tt
  else
    let+ mention := mention_of before in
    log_to_channel (message_guild after) MessageEdited
                   (edited_description before after mention).

(** [on_guild_channel_update]: only a change of name is logged. *)
Definition on_guild_channel_update (g : guild) (before_name after_name : text) : M unit :=
  if bool_decide (before_name ≠ after_name)
  then log_to_channel (Some g) ChannelRenamed
         (lit "Channel: #" ++ after_name ++ nl
          ++ lit "Before: #" ++ before_name ++ nl
          ++ lit "After: #" ++ after_name)
  else Cog.ret tt.

(** The channel the stored configuration of a server asks to log into, if
    logging is enabled there and the client knows the channel. *)
Definition wanted (s : cog) (g : Z) : option Z :=
  match guild_data s !! g with
  | Some data =>
    let cfg := logs_config_of data in
    if logging_enabled cfg
    then match configured_channel cfg with
         | Some c => if bool_decide (c ∈ live_channels s) then Some c else None
         | None => None
         end
    else None
  | None => None
  end.

(** A cache that grew out of another: same stored data, same platform, and
    every new entry is a channel the client knows. *)
Definition grown_from (s s' : cog) : Prop :=
  guild_data s' = guild_data s
  ∧ live_channels s' = live_channels s
  ∧ connected s' = connected s
  ∧ ∀ g c, log_channels s' !! g = Some c →
           log_channels s !! g = Some c ∨ c ∈ live_channels s.

Definition printed (ev : event) : bool :=
  match ev with
  | Printed _ _ => true
  | _ => false
  end.

(** The update of the store went through. *)
Definition store_written (ev : event) : bool :=
  match ev with
  | Did (update_guild_data _ _) None => true
  | _ => false
  end.

(** A log entry was posted, or tried. *)
Definition log_entry_sent (ev : event) : bool :=
  match ev with
  | Did (channel_send _ (LogEntry _ _)) _ => true
  | _ => false
  end.

End Logging.

(** ** cogs/moderation.py: timeouts, unbans and purges *)

Module Moderation.

(** The action and what the reason text says of it. *)
Inductive action :=
| MUTE (minutes : Z)
| UNBAN
| PURGE (deleted : nat).

(** The answers to the moderator. *)
Inductive reply :=
| NoPermission
| BotCannotTimeout
| BadDuration
| TimeoutHierarchy
| MemberMuted (u minutes : Z)
| TimeoutForbidden
| BotCannotUnban
| NotBanned
| UserUnbanned (u : Z)
| UnbanForbidden
| BotCannotDelete
| BadLimit
| TextChannelsOnly
| Purged (deleted : nat) (plural : text)
| PurgeForbidden
| Unexpected.

Inductive call :=
| response_send_message (r : reply)
| response_defer
| followup_send (r : reply)
| member_timeout (u until : Z)
| guild_fetch_ban (u : Z)
| guild_unban (u : Z)
| channel_purge (limit : Z)
| log_moderation_action (g u : Z) (a : action) (moderator : Z).

(** The journal: what the permission check did, then the command's own
    calls. *)
Inductive step :=
| Checked (ev : event)
| Did (c : call) (raised : option exn).

Definition M (A : Type) : Type := Cog.M world step A.

(** [await self._check_mod_permissions(interaction)]. *)
Definition check (i : interaction) : M bool :=
  Cog.lift Checked (_check_mod_permissions i).

(** What [mute] reads of [interaction.guild.me] and of its target. *)
Record mute_context := MuteContext {
  me_moderate_members : bool;
  me_top_role : Z;
  member_id : Z;
  member_top_role : Z
}.

(** The clock counts seconds; [timedelta(minutes=duration)] is
    [60 * duration] of them. *)
Definition mute (i : interaction) (k : mute_context) (duration : Z) : M unit :=
  let+ allowed := check i in
  if negb allowed then Cog.await (Did (response_send_message NoPermission))
  else
    match guild i with
    | None => Cog.raise OtherError
    | Some g =>
      if negb (me_moderate_members k)
      then Cog.await (Did (response_send_message BotCannotTimeout))
      else if (duration <? 1) || (40320 <? duration)
      then Cog.await (Did (response_send_message BadDuration))
      else if me_top_role k <=? member_top_role k
      then Cog.await (Did (response_send_message TimeoutHierarchy))
      else
        Cog.try_except
          (let+ now := Cog.now in
           let until := now + 60 * duration in
           Cog.await (Did (member_timeout (member_id k) until)) ;;+
           Cog.await (Did (log_moderation_action g (member_id k) (MUTE duration)
                                                 (caller_id (user i)))) ;;+
           Cog.await (Did (response_send_message (MemberMuted (member_id k) duration))))
          (λ e, if is_forbidden e
                then Cog.await (Did (response_send_message TimeoutForbidden))
                else Cog.await (Did (response_send_message Unexpected)))
    end.

(** [unban]; [me_ban_members] is
    [interaction.guild.me.guild_permissions.ban_members]. The inner [try]
    catches [discord.NotFound] only, and its answer is sent inside the
    outer [try]. *)
Definition unban (i : interaction) (me_ban_members : bool) (u : Z) : M unit :=
  let+ allowed := check i in
  if negb allowed then Cog.await (Did (response_send_message NoPermission))
  else
    match guild i with
    | None => Cog.raise OtherError
    | Some g =>
      if negb me_ban_members
      then Cog.await (Did (response_send_message BotCannotUnban))
      else
        Cog.try_except
          (let+ banned :=
             Cog.try_except
               (Cog.await (Did (guild_fetch_ban u)) ;;+ Cog.ret true)
               (λ e, match e with
                     | NotFound =>
                       Cog.await (Did (response_send_message NotBanned)) ;;+
                       Cog.ret false
                     | _ => Cog.raise e
                     end) in
           if negb banned then Cog.ret tt
           else
             Cog.await (Did (guild_unban u)) ;;+
             Cog.await (Did (log_moderation_action g u UNBAN (caller_id (user i)))) ;;+
             Cog.await (Did (response_send_message (UserUnbanned u))))
          (λ e, if is_forbidden e
                then Cog.await (Did (response_send_message UnbanForbidden))
                else Cog.await (Did (response_send_message Unexpected)))
    end.

(** What [purge] reads of [interaction.guild.me] and of the platform:
    whether a channel that is not a thread is a [discord.TextChannel], and
    how many messages [channel.purge] reports as deleted. *)
Record purge_context := PurgeContext {
  me_manage_messages : bool;
  text_channel : bool;
  deleted_count : nat
}.

(** [isinstance(interaction.channel, discord.TextChannel)]: a thread is
    none. *)
Definition in_text_channel (i : interaction) (k : purge_context) : bool :=
  match channel i with
  | Thread _ => false
  | OtherChannel _ => text_channel k
  end.

Definition purge (i : interaction) (k : purge_context) (limit : Z) : M unit :=
  let+ allowed := check i in
  if negb allowed then Cog.await (Did (response_send_message NoPermission))
  else
    match guild i with
    | None => Cog.raise OtherError
    | Some g =>
      if negb (me_manage_messages k)
      then Cog.await (Did (response_send_message BotCannotDelete))
      else if (limit <? 1) || (100 <? limit)
      then Cog.await (Did (response_send_message BadLimit))
      else if negb (in_text_channel i k)
      then Cog.await (Did (response_send_message TextChannelsOnly))
      else
        Cog.try_except
          (Cog.await (Did response_defer) ;;+
           Cog.await (Did (channel_purge limit)) ;;+
           let deleted_count := deleted_count k in
           Cog.await (Did (log_moderation_action g (caller_id (user i))
                                                 (PURGE deleted_count)
                                                 (caller_id (user i)))) ;;+
           Cog.await (Did (followup_send
                             (Purged deleted_count
                                     (if bool_decide (deleted_count ≠ 1%nat)
                                      then lit "s" else lit "")))))
          (λ e, if is_forbidden e
                then Cog.await (Did (followup_send PurgeForbidden))
                else Cog.await (Did (followup_send Unexpected)))
    end.

(** Reading the journal: a call of some kind was made, or went through. *)
Definition did (p : call → bool) (ev : step) : bool :=
  match ev with
  | Did c _ => p c
  | Checked _ => false
  end.

Definition done (p : call → bool) (ev : step) : bool :=
  match ev with
  | Did c None => p c
  | _ => false
  end.

Definition is_timeout (c : call) : bool :=
  match c with
  | member_timeout _ _ => true
  | _ => false
  end.

Definition is_log (c : call) : bool :=
  match c with
  | log_moderation_action _ _ _ _ => true
  | _ => false
  end.

Definition is_fetch_ban (c : call) : bool :=
  match c with
  | guild_fetch_ban _ => true
  | _ => false
  end.

Definition is_unban (c : call) : bool :=
  match c with
  | guild_unban _ => true
  | _ => false
  end.

Definition is_purge (c : call) : bool :=
  match c with
  | channel_purge _ => true
  | _ => false
  end.

Definition is_defer (c : call) : bool :=
  match c with
  | response_defer => true
  | _ => false
  end.

Definition is_response (c : call) : bool :=
  match c with
  | response_send_message _ => true
  | _ => false
  end.

Definition is_followup (c : call) : bool :=
  match c with
  | followup_send _ => true
  | _ => false
  end.

(** The moderator is told of a success. *)
Definition is_success (c : call) : bool :=
  match c with
  | response_send_message (MemberMuted _ _) => true
  | response_send_message (UserUnbanned _) => true
  | followup_send (Purged _ _) => true
  | _ => false
  end.

(** The moderator is told that the user is not banned. *)
Definition is_not_banned (c : call) : bool :=
  match c with
  | response_send_message NotBanned => true
  | _ => false
  end.

(** The ban look-up answered that there is no such ban. *)
Definition ban_not_found (ev : step) : bool :=
  match ev with
  | Did (guild_fetch_ban _) (Some NotFound) => true
  | _ => false
  end.

End Moderation.

(** ** cogs/whisper.py: the settings command *)

Definition set_cfg_whisper_enabled (f : gmap Z bool → gmap Z bool) (w : world) : world :=
  World (whispers w) (_active_whispers w) (cfg_whisper_channel w)
        (f (cfg_whisper_enabled w)) (cfg_moderation_enabled w) (channels w) (journal w).

(** Modelled from the spec: the missing [utils/config.py]. *)
Definition config_set_whisper_enabled (g : Z) (b : bool) : M unit :=
  await (config_set g whisper_enabled) ;;;
  modify (set_cfg_whisper_enabled (<[g := b]>)).

Module Settings.

Inductive reply :=
| SettingsShown (enabled : bool) (channel : option Z)
| SettingsError.

(** The journal: the calls of the whisper cog's collaborators, and the
    answers of this command. *)
Inductive step :=
| Whisper (ev : event)
| Replied (r : reply) (raised : option exn).

Definition M (A : Type) : Type := Cog.M world step A.

(** [setup_whispers(interaction, enabled, channel)]. *)
Definition setup_whispers
    (i : interaction) (enabled : option bool) (channel : option Z) : M unit :=
  match guild i with
  | None => Cog.lift Whisper (await (response_send_message ServerOnly))
  | Some g =>
    Cog.try_except
      (match enabled with
       | Some b => Cog.lift Whisper (config_set_whisper_enabled g b)
       | None => Cog.ret tt
       end ;;+
       match channel with
       | Some c => Cog.lift Whisper (config_set_whisper_channel g c)
       | None => Cog.ret tt
       end ;;+
       let+ whisper_enabled' := Cog.lift Whisper (config_get_whisper_enabled g) in
       let+ whisper_channel_id := Cog.lift Whisper (config_get_whisper_channel g) in
       Cog.await (Replied (SettingsShown whisper_enabled' whisper_channel_id)) ;;+
       if default false enabled && negb (bool_decide (is_Some whisper_channel_id))
       then Cog.lift Whisper (_setup_whisper_channel g) ;;+ Cog.ret tt
       else Cog.ret tt)
      (λ _, Cog.await (Replied SettingsError))
  end.

(** An answer that reached the administrator. *)
Definition delivered (ev : step) : bool :=
  match ev with
  | Replied _ None => true
  | _ => false
  end.

(** A channel was created. *)
Definition created (ev : step) : bool :=
  match ev with
  | Whisper (Called (create_text_channel _ _) _) => true
  | _ => false
  end.

End Settings.

(** The user was told that the whisper feature is disabled. *)
Definition told_disabled (ev : event) : bool :=
  match ev with
  | Called (response_send_message WhisperDisabled) _ => true
  | _ => false
  end.

(** ** More worked inputs *)

(** A moderator of server 1 holding [kick_members] only, an administrator
    of that server, and the member 8 they kick: the bot may kick, and its
    top role is above the member's. *)
Definition moderator_7 : interaction :=
  Interaction (Some 1) (Member 7 kick_only) (OtherChannel 3).

Definition admin_7 : interaction :=
  Interaction (Some 1) (Member 7 admin_only) (OtherChannel 3).

Definition member_8 : kick_context := KickContext true 10 8 2.

(** Server 1 logs into channel 30, where the bot holds every permission;
    nothing is cached yet. *)
Definition logged_cog : Logging.cog :=
  Logging.Cog ∅ {[ 1 := Some (Logging.LogsConfig (Some true) (Some 30)) ]} {[ 30 ]}
              (λ _ _, true) true.

(** The same with channel 30 cached, the bot not allowed to embed links
    anywhere. *)
Definition no_embed_cog : Logging.cog :=
  Logging.Cog {[ 1 := 30 ]}
              {[ 1 := Some (Logging.LogsConfig (Some true) (Some 30)) ]} {[ 30 ]}
              (λ _ p, match p with
                      | Logging.embed_links => false
                      | _ => true
                      end) true.

(** Server 1 without a system channel, with the text channels 31 and 32. *)
Definition guild_1 : Logging.guild := Logging.Guild 1 None [31; 32].

(** ** Symbolic execution *)

Ltac unfold_monad :=
  cbv beta iota zeta delta
    [run bind ret raise try_except get modify position ask await cached
     db_fetchone_owner db_fetchall_open db_execute_insert db_execute_update
     config_get_whisper_enabled config_get_whisper_channel
     config_get_moderation_enabled config_set_whisper_channel
     guild_get_channel guild_create_text_channel channel_create_thread
     guild_permissions_of durable
     set_journal set_whispers set_active_whispers set_cfg_whisper_channel
     set_channels whispers _active_whispers cfg_whisper_channel
     cfg_whisper_enabled cfg_moderation_enabled channels journal
     fst snd length app].

(** Run the handler in the goal: unfold, use [tac] to rewrite with what is
    known of the world, and branch on each scripted outcome in turn. *)
Ltac exec_with tac :=
  unfold_monad;
  repeat (progress (repeat (progress (simpl; try tac));
                    try match goal with
                        | |- context [match raises ?o ?k with Some _ => _ | None => _ end] =>
                            let E := fresh "Hcall" in destruct (raises o k) eqn:E
                        end)).

(** Case analysis on the next scripted outcome. *)
Ltac next_outcome :=
  match goal with
  | |- context [match raises ?o ?k with Some _ => _ | None => _ end] =>
      let E := fresh "Hcall" in destruct (raises o k) eqn:E
  end.

(** Membership in an explicit list, by inspection of its elements. *)
Ltac absent :=
  let Hin := fresh "Hin" in
  intros Hin;
  repeat (apply elem_of_cons in Hin as [Hin|Hin]; [discriminate Hin|]);
  apply elem_of_nil in Hin; exact Hin.

(** Case analysis on what [create_whisper] reads of the world. *)
Ltac read_world :=
  match goal with
  | |- context [default true (?m !! ?g)] => destruct (m !! g) as [[|]|] eqn:?
  | |- context [existing_whisper ?c ?g ?u] => destruct (existing_whisper c g u) eqn:?
  | |- context [match ?m !! ?g with Some _ => _ | None => _ end] =>
      destruct (m !! g) eqn:?
  | |- context [bool_decide ?P] => destruct (bool_decide P) eqn:?
  end.

(** Case analysis on what [close_whisper] reads. *)
Ltac read_close :=
  match goal with
  | |- context [select_open_owner ?g ?t ?rows] =>
      destruct (select_open_owner g t rows) eqn:?
  | |- context [administrator ?p] => destruct (administrator p) eqn:?
  | |- context [?a =? ?b] => first [rewrite Z.eqb_refl | destruct (a =? b) eqn:?]
  | |- context [match ?m !! ?g with Some _ => _ | None => _ end] =>
      destruct (m !! g) eqn:?
  end.

(** The registry after a pop that was skipped, the server having no
    mapping. *)
Ltac skipped_pop :=
  unfold forget_whisper;
  match goal with
  | H : _ !! _ = None |- _ => rewrite H
  end.

(** Membership in an explicit table, row by row. *)
Ltac each_row H :=
  repeat (apply elem_of_cons in H as [->|H]); [..|by apply elem_of_nil in H].

(** ** The registry and the store, as data *)

Section registry.
Implicit Types (cache : gmap Z (gmap Z Z)) (g u t : Z).

Lemma lookup_entry w g u : lookup w g u = entry (_active_whispers w) g u.
Proof. reflexivity. Qed.

Lemma existing_whisper_entry cache g u :
  existing_whisper cache g u = entry cache g u.
Proof.
  unfold existing_whisper, entry. destruct (cache !! g) as [aw|]; simpl; [|done].
  case_bool_decide as Haw; [|done]. subst aw. by rewrite lookup_empty.
Qed.

Lemma entry_remember cache g u t g' u' :
  entry (remember_whisper g u t cache) g' u'
  = if decide (g' = g ∧ u' = u) then Some t else entry cache g' u'.
Proof.
  unfold entry, remember_whisper.
  destruct (decide (g' = g)) as [->|Hg].
  - rewrite lookup_insert_eq. simpl.
    destruct (decide (u' = u)) as [->|Hu].
    + rewrite lookup_insert_eq. by rewrite decide_True.
    + rewrite lookup_insert_ne by done. rewrite decide_False by (intros [? ?]; congruence).
      destruct (cache !! g); simpl; [done|]. by rewrite lookup_empty.
  - rewrite lookup_insert_ne by done. by rewrite decide_False by (intros [? ?]; congruence).
Qed.

Lemma entry_forget cache g u g' u' :
  entry (forget_whisper g u cache) g' u'
  = if decide (g' = g ∧ u' = u) then None else entry cache g' u'.
Proof.
  unfold entry, forget_whisper.
  destruct (cache !! g) as [aw|] eqn:Hc.
  - destruct (decide (g' = g)) as [->|Hg].
    + rewrite lookup_insert_eq. simpl.
      destruct (decide (u' = u)) as [->|Hu].
      * rewrite lookup_delete_eq. by rewrite decide_True.
      * rewrite lookup_delete_ne by done. rewrite decide_False by (intros [? ?]; congruence).
        by rewrite Hc.
    + rewrite lookup_insert_ne by done. by rewrite decide_False by (intros [? ?]; congruence).
  - case_decide as Hd; [|done]. destruct Hd as [-> ->]. by rewrite Hc.
Qed.
End registry.

Section store.
Implicit Types (rows : list whisper_row) (r : whisper_row) (g u t now : Z).

Lemma same_thread_spec g t r :
  same_thread g t r = true ↔ guild_id r = g ∧ thread_id r = t.
Proof. unfold same_thread. rewrite andb_true_iff, !Z.eqb_eq. done. Qed.

Lemma open_for_spec g u r :
  open_for g u r = true ↔ guild_id r = g ∧ user_id r = u ∧ is_open r = true.
Proof.
  unfold open_for. rewrite !andb_true_iff, !Z.eqb_eq. tauto.
Qed.

Lemma select_open_owner_Some g t rows owner :
  select_open_owner g t rows = Some owner →
  ∃ r, r ∈ rows ∧ same_thread g t r = true ∧ is_open r = true ∧ user_id r = owner.
Proof.
  unfold select_open_owner. intros H.
  destruct (List.find _ rows) as [r|] eqn:Hf; simpl in H; [|done].
  injection H as <-. apply find_some in Hf as [Hin Hr].
  apply andb_true_iff in Hr as [? ?]. exists r.
  by rewrite list_elem_of_In.
Qed.

Lemma select_open_owner_closed g t rows :
  (∀ r, r ∈ rows → same_thread g t r = true → is_open r = false) →
  select_open_owner g t rows = None.
Proof.
  unfold select_open_owner. intros Hclosed.
  destruct (List.find _ rows) as [r|] eqn:Hf; [|done].
  apply find_some in Hf as [Hin Hr]. apply andb_true_iff in Hr as [Hs Ho].
  apply list_elem_of_In in Hin. rewrite (Hclosed r Hin Hs) in Ho. discriminate.
Qed.

Lemma select_open_owner_None g t rows r :
  select_open_owner g t rows = None → r ∈ rows →
  same_thread g t r = true → is_open r = false.
Proof.
  unfold select_open_owner. intros H Hin Hs.
  destruct (List.find _ rows) as [r'|] eqn:Hf; simpl in H; [done|].
  apply list_elem_of_In in Hin.
  pose proof (find_none _ _ Hf r Hin) as Hn. simpl in Hn.
  rewrite Hs in Hn. simpl in Hn. done.
Qed.

Lemma elem_of_update_closed g t now rows r' :
  r' ∈ update_closed g t now rows ↔
  ∃ r, r ∈ rows ∧ r' = if same_thread g t r then close_row now r else r.
Proof.
  unfold update_closed. rewrite list_elem_of_In, in_map_iff.
  split; intros (r & H1 & H2); exists r.
  - by rewrite list_elem_of_In.
  - by rewrite <- list_elem_of_In.
Qed.

Lemma update_closed_closes g t now rows r :
  r ∈ update_closed g t now rows → same_thread g t r = true →
  is_open r = false ∧ closed_at r = Some now.
Proof.
  rewrite elem_of_update_closed. intros (r0 & Hin & ->) Hs.
  destruct (same_thread g t r0) eqn:Hs0; [done|congruence].
Qed.
Lemma update_closed_open g t now rows r :
  r ∈ update_closed g t now rows → is_open r = true →
  r ∈ rows ∧ same_thread g t r = false.
Proof.
  rewrite elem_of_update_closed. intros (r0 & Hin & ->) Hopen.
  destruct (same_thread g t r0) eqn:Hs; [discriminate Hopen|done].
Qed.

Lemma update_closed_keeps g t now rows r :
  r ∈ rows → same_thread g t r = false → r ∈ update_closed g t now rows.
Proof.
  intros Hin Hs. apply elem_of_update_closed. exists r. by rewrite Hs.
Qed.

Lemma elem_of_open_filter g u rows r :
  r ∈ List.filter (open_for g u) rows ↔ r ∈ rows ∧ open_for g u r = true.
Proof. by rewrite !list_elem_of_In, filter_In. Qed.

(** With at most one open row for a pair, two open rows of the pair are
    the same row. *)
Lemma open_count_unique g u rows r1 r2 :
  (open_count g u rows ≤ 1)%nat →
  r1 ∈ rows → open_for g u r1 = true →
  r2 ∈ rows → open_for g u r2 = true → r1 = r2.
Proof.
  unfold open_count. intros Hlen H1 Ho1 H2 Ho2.
  assert (Hf1 : r1 ∈ List.filter (open_for g u) rows) by by apply elem_of_open_filter.
  assert (Hf2 : r2 ∈ List.filter (open_for g u) rows) by by apply elem_of_open_filter.
  destruct (List.filter (open_for g u) rows) as [|x [|y l]]; simpl in Hlen.
  - by apply elem_of_nil in Hf1.
  - apply list_elem_of_singleton in Hf1, Hf2. congruence.
  - lia.
Qed.

Lemma open_count_none g u rows :
  (∀ r, r ∈ rows → open_for g u r = false) → open_count g u rows = 0%nat.
Proof.
  unfold open_count. intros Hnone.
  destruct (List.filter (open_for g u) rows) as [|x l] eqn:Hf; [done|].
  assert (Hx : x ∈ List.filter (open_for g u) rows) by (rewrite Hf; constructor).
  apply elem_of_open_filter in Hx as [Hin Hopen].
  rewrite (Hnone x Hin) in Hopen. discriminate.
Qed.

Lemma open_count_insert g u t now g' u' rows :
  open_count g' u' (insert_whisper g u t now rows)
  = (open_count g' u' rows + if decide (g' = g ∧ u' = u) then 1 else 0)%nat.
Proof.
  unfold open_count, insert_whisper. rewrite List.filter_app, length_app. f_equal.
  simpl. unfold open_for at 1. simpl.
  case_decide as Hd.
  - destruct Hd as [-> ->]. by rewrite !Z.eqb_refl.
  - destruct (g =? g') eqn:E1; [|done]. destruct (u =? u') eqn:E2; [|done].
    apply Z.eqb_eq in E1, E2. exfalso. apply Hd. done.
Qed.

Lemma open_count_update g t now g' u' rows :
  (open_count g' u' (update_closed g t now rows) ≤ open_count g' u' rows)%nat.
Proof.
  unfold open_count, update_closed.
  induction rows as [|r rows IH]; simpl; [done|].
  destruct (same_thread g t r) eqn:Hs.
  - unfold open_for at 1. simpl. rewrite andb_false_r.
    destruct (open_for g' u' r); simpl; lia.
  - destruct (open_for g' u' r); simpl; lia.
Qed.
End store.

(** ** The moderation permission check *)

Lemma check_mod_admin (i : interaction) (g id : Z) (p : permissions) (o : script) (w : world) :
  guild i = Some g → user i = Member id p →
  administrator p || manage_guild p = true →
  run (_check_mod_permissions i) o w = (Returned true, durable w).
Proof.
  intros Hg Hu Hp. unfold _check_mod_permissions. rewrite Hg, Hu, Hp.
  reflexivity.
Qed.

Lemma check_mod_flag_off (i : interaction) (g id : Z) (p : permissions) (o : script) (w : world) :
  guild i = Some g → user i = Member id p →
  administrator p = false → manage_guild p = false →
  cfg_moderation_enabled w !! g = Some false →
  raises o 0%nat = None →
  (run (_check_mod_permissions i) o w).1 = Returned false.
Proof.
  intros Hg Hu Ha Hm Hflag Hcall. unfold _check_mod_permissions.
  rewrite Hg, Hu, Ha, Hm. destruct w. unfold_monad. simpl in *.
  rewrite Hcall, Hflag. reflexivity.
Qed.

(** C10. In a server, a member holding [administrator] or [manage_guild]
    passes [_check_mod_permissions] whatever the [moderation_enabled] flag
    holds (the configuration is not even read, so the answer is the same
    under every script), and [kick] never answers such a caller with the
    permission refusal. When the flag is false, a member holding neither
    of the two is refused even with [kick_members] or [ban_members]: the
    check returns [False], and [kick] replies with the refusal and calls
    nothing else. *)
Theorem mod_check_admin_bypass_and_flag
    (i : interaction) (g id : Z) (p : permissions) (k : kick_context)
    (o : script) (w : world) :
  guild i = Some g → user i = Member id p →
  (administrator p || manage_guild p = true →
     (run (_check_mod_permissions i) o w).1 = Returned true
     ∧ journal (run (_check_mod_permissions i) o w).2 = []
     ∧ ModDenied ∉ replies (journal (run (kick i k) o w).2))
  ∧ (administrator p = false → manage_guild p = false →
     cfg_moderation_enabled w !! g = Some false →
     raises o 0%nat = None →
     (run (_check_mod_permissions i) o w).1 = Returned false
     ∧ journal (run (kick i k) o w).2
       = [Called (config_get g moderation_enabled) None;
          Called (response_send_message ModDenied) (raises o 1%nat)]).
Proof.
  intros Hg Hu. split.
  - intros Hp. rewrite (check_mod_admin i g id p o w Hg Hu Hp). simpl.
    split; [reflexivity|]. split; [destruct w; reflexivity|].
    unfold kick, _check_mod_permissions, _send_user_dm.
    rewrite Hg, Hu, Hp. destruct w. unfold_monad. simpl.
    destruct (me_kick_members k); simpl.
    2: { next_outcome; simpl; absent. }
    destruct (me_top_role k <=? member_top_role k); simpl.
    { next_outcome; simpl; absent. }
    repeat (next_outcome; simpl;
            try match goal with
                | |- context [is_http_exception ?e] => destruct e; simpl
                | |- context [is_forbidden ?e] => destruct e; simpl
                end);
      absent.
  - intros Ha Hm Hflag Hcall.
    split; [eapply check_mod_flag_off; eauto|].
    unfold kick, _check_mod_permissions.
    rewrite Hg, Hu, Ha, Hm. destruct w. unfold_monad. simpl in *.
    rewrite Hcall, Hflag. simpl. destruct (raises o 1%nat); reflexivity.
Qed.

(** ** Closing a thread *)

(** C7. [close_whisper] on a thread with no open row for it in the store
    (already closed, or never a whisper thread): under every script the
    world is left as it was (no store write, no registry change) and no
    mutating call is made, the platform thread included; the closing
    confirmation is never sent; when the look-up and the reply go through,
    the handler returns after exactly those two calls, the reply being the
    not-a-whisper-thread refusal. *)
Theorem close_unknown_thread_refused
    (i : interaction) (g t : Z) (o : script) (w : world) :
  guild i = Some g → channel i = Thread t →
  (∀ r, r ∈ whispers w → same_thread g t r = true → is_open r = false) →
  durable (run (close_whisper i) o w).2 = durable w
  ∧ existsb mutating (journal (run (close_whisper i) o w).2) = false
  ∧ (WhisperClosed ∉ replies (journal (run (close_whisper i) o w).2))
  ∧ (raises o 0%nat = None → raises o 1%nat = None →
     (run (close_whisper i) o w).1 = Returned tt
     ∧ journal (run (close_whisper i) o w).2
       = [Called (db_fetchone g t) None;
          Called (response_send_message NotAWhisperThread) None]).
Proof.
  intros Hg Hc Hclosed. apply select_open_owner_closed in Hclosed as Hnone.
  unfold close_whisper. rewrite Hg, Hc. clear Hclosed.
  destruct w as [rows cache c1 c2 c3 chs j]. cbn [whispers] in Hnone.
  exec_with ltac:(rewrite Hnone);
    (repeat split; try reflexivity; try absent; try congruence).
Qed.

(** C6. [close_whisper] on an open whisper thread by a caller who is
    neither its owner nor an administrator: under every script the world is
    left as it was (store row and registry entry included) and no mutating
    call is made, the platform thread included; the closing confirmation is
    never sent; when the look-up and the reply go through, the reply is the
    permission refusal (for a caller without [guild_permissions], the
    generic closing error). *)
Theorem close_by_stranger_refused
    (i : interaction) (g t owner : Z) (o : script) (w : world) :
  guild i = Some g → channel i = Thread t →
  select_open_owner g t (whispers w) = Some owner →
  caller_id (user i) ≠ owner → is_administrator (user i) = false →
  durable (run (close_whisper i) o w).2 = durable w
  ∧ existsb mutating (journal (run (close_whisper i) o w).2) = false
  ∧ (WhisperClosed ∉ replies (journal (run (close_whisper i) o w).2))
  ∧ (raises o 0%nat = None → raises o 1%nat = None →
     (run (close_whisper i) o w).1 = Returned tt
     ∧ replies (journal (run (close_whisper i) o w).2)
       = [if is_member (user i) then CloseDenied else CloseError]).
Proof.
  intros Hg Hc Howner Hne Hadm. unfold close_whisper. rewrite Hg, Hc.
  destruct w as [rows cache c1 c2 c3 chs j]. cbn [whispers] in Howner.
  apply Z.eqb_neq in Hne.
  destruct (user i) as [uid|uid p]; simpl in Hne, Hadm; simpl;
    exec_with ltac:(first [rewrite Howner | rewrite Hadm, Hne]);
    (repeat split; try reflexivity; try absent; try congruence).
Qed.

(** C4. A successful close of an open whisper thread (the caller is an
    administrator or the owner, no call raises) makes exactly these calls,
    in this order: the look-up, the closing message posted into the thread,
    the UPDATE marking the row closed with the closure time, the removal of
    the owner's registry entry, the edit archiving and locking the thread,
    and the confirmation. The removal is made when the registry has a
    mapping for the server; when it has none there is no entry to remove
    and the code goes on to the edit. Afterwards every row of that thread
    is closed with that closure time, the owner's row among them, and
    [lookup] for the owner returns nothing. *)
Theorem close_whisper_success
    (i : interaction) (g t owner uid : Z) (p : permissions) (o : script) (w : world) :
  guild i = Some g → channel i = Thread t →
  select_open_owner g t (whispers w) = Some owner →
  user i = Member uid p → administrator p = true ∨ uid = owner →
  calm o →
  let w' := (run (close_whisper i) o w).2 in
  let now := utcnow o 2%nat in
  (run (close_whisper i) o w).1 = Returned tt
  ∧ journal w'
    = [Called (db_fetchone g t) None;
       Called (thread_send t ClosedWhisperEmbed) None;
       Called (db_execute (UpdateClosed g t now)) None]
      ++ match _active_whispers w !! g with
         | Some _ => [Cached (cache_pop g owner)]
         | None => []
         end
      ++ [Called (thread_edit t) None;
          Called (response_send_message WhisperClosed) None]
  ∧ whispers w' = update_closed g t now (whispers w)
  ∧ (∀ r, r ∈ whispers w' → same_thread g t r = true →
       is_open r = false ∧ closed_at r = Some now)
  ∧ (∃ r, r ∈ whispers w' ∧ guild_id r = g ∧ user_id r = owner
          ∧ thread_id r = t ∧ is_open r = false ∧ closed_at r = Some now)
  ∧ lookup w' g owner = None.
Proof.
  intros Hg Hc Howner Hu Hauth Hcalm w' now.
  assert (Hok : administrator p || (uid =? owner) = true).
  { destruct Hauth as [->| ->]; [done|]. rewrite Z.eqb_refl. by rewrite orb_true_r. }
  assert (Hrun : run (close_whisper i) o w
                 = (Returned tt,
                    World (update_closed g t now (whispers w))
                          (forget_whisper g owner (_active_whispers w))
                          (cfg_whisper_channel w) (cfg_whisper_enabled w)
                          (cfg_moderation_enabled w) (channels w)
                          ([Called (db_fetchone g t) None;
                            Called (thread_send t ClosedWhisperEmbed) None;
                            Called (db_execute (UpdateClosed g t now)) None]
                           ++ match _active_whispers w !! g with
                              | Some _ => [Cached (cache_pop g owner)]
                              | None => []
                              end
                           ++ [Called (thread_edit t) None;
                               Called (response_send_message WhisperClosed) None]))).
  { subst now. unfold close_whisper. rewrite Hg, Hc, Hu.
    destruct w as [rows cache c1 c2 c3 chs j]. cbn [whispers] in Howner.
    cbn [_active_whispers].
    destruct (cache !! g) as [aw|] eqn:Hkey;
      exec_with ltac:(rewrite ?Hcalm, ?Howner, ?Hok, ?Hkey);
      [reflexivity|].
    skipped_pop. reflexivity. }
  subst w'. rewrite Hrun. simpl.
  split; [done|]. split; [done|]. split; [done|].
  split; [intros r; apply update_closed_closes|].
  split.
  - apply select_open_owner_Some in Howner as (r & Hin & Hs & Hopen & Hown).
    apply same_thread_spec in Hs as [Hrg Hrt].
    exists (close_row now r). split.
    + apply elem_of_update_closed. exists r. split; [done|].
      replace (same_thread g t r) with true; [done|].
      symmetry. by apply same_thread_spec.
    + by simpl.
  - rewrite lookup_entry. simpl. rewrite entry_forget. by rewrite decide_True.
Qed.

(** The permission check of [kick] reads the configuration before the
    [try] block of the handler is entered. *)
Lemma kick_check_escapes
    (i : interaction) (g id : Z) (p : permissions) (k : kick_context)
    (o : script) (w : world) (e : exn) :
  guild i = Some g → user i = Member id p →
  administrator p = false → manage_guild p = false →
  raises o 0%nat = Some e →
  run (kick i k) o w
  = (Raised e,
     World (whispers w) (_active_whispers w) (cfg_whisper_channel w)
           (cfg_whisper_enabled w) (cfg_moderation_enabled w) (channels w)
           [Called (config_get g moderation_enabled) (Some e)]).
Proof.
  intros Hg Hu Ha Hm Hcall. unfold kick, _check_mod_permissions.
  rewrite Hg, Hu, Ha, Hm. destruct w. unfold_monad. simpl.
  rewrite Hcall. reflexivity.
Qed.

(** C9, as the code has it. [kick] awaits its permission check and sends
    the refusal before its [try] block is entered. For a caller who is not
    let through on [administrator] or [manage_guild]: when the
    configuration read of the check raises, or when the check refuses and
    the refusal cannot be sent, the exception leaves the handler and no
    message reaches the user. *)
Theorem kick_check_failure_propagates
    (i : interaction) (g id : Z) (p : permissions) (k : kick_context)
    (o : script) (w : world) (e : exn) :
  guild i = Some g → user i = Member id p →
  administrator p = false → manage_guild p = false →
  (raises o 0%nat = Some e →
     (run (kick i k) o w).1 = Raised e
     ∧ replies (journal (run (kick i k) o w).2) = [])
  ∧ (raises o 0%nat = None → cfg_moderation_enabled w !! g = Some false →
     raises o 1%nat = Some e →
     (run (kick i k) o w).1 = Raised e
     ∧ replies (journal (run (kick i k) o w).2) = []).
Proof.
  intros Hg Hu Ha Hm. split.
  - intros Hcall.
    rewrite (kick_check_escapes i g id p k o w e Hg Hu Ha Hm Hcall). done.
  - intros H0 Hflag H1. unfold kick, _check_mod_permissions.
    rewrite Hg, Hu, Ha, Hm. destruct w. unfold_monad. simpl in *.
    rewrite H0, Hflag. simpl. rewrite H1. done.
Qed.

(** The same holds of the whisper handlers when the reply itself cannot be
    sent: the handler of [except Exception] sends again, outside any [try]. *)
Lemma close_whisper_reply_failure_propagates
    (i : interaction) (g t : Z) (o : script) (w : world) (e0 e1 : exn) :
  guild i = Some g → channel i = Thread t →
  raises o 0%nat = Some e0 → raises o 1%nat = Some e1 →
  (run (close_whisper i) o w).1 = Raised e1
  ∧ replies (journal (run (close_whisper i) o w).2) = [].
Proof.
  intros Hg Hc H0 H1. unfold close_whisper. rewrite Hg, Hc.
  destruct w. unfold_monad. simpl. rewrite H0. simpl. rewrite H1. done.
Qed.

(** ** Opening a thread *)

(** When the registry already has an entry for the caller, an enabled
    server answers with that thread and does nothing else, under every
    script. *)
Lemma create_whisper_existing
    (i : interaction) (g t : Z) (o : script) (w : world) :
  guild i = Some g →
  default true (cfg_whisper_enabled w !! g) = true →
  lookup w g (caller_id (user i)) = Some t →
  durable (run (create_whisper i) o w).2 = durable w
  ∧ existsb mutating (journal (run (create_whisper i) o w).2) = false
  ∧ (raises o 0%nat = None → raises o 1%nat = None →
     (run (create_whisper i) o w).1 = Returned tt
     ∧ journal (run (create_whisper i) o w).2
       = [Called (config_get g whisper_enabled) None;
          Called (response_send_message (AlreadyActive t)) None]).
Proof.
  intros Hg Hen Hentry. rewrite lookup_entry, <- existing_whisper_entry in Hentry.
  unfold create_whisper. rewrite Hg.
  destruct w as [rows cache c1 c2 c3 chs j].
  cbn [cfg_whisper_enabled _active_whispers] in Hen, Hentry.
  exec_with ltac:(rewrite ?Hen, ?Hentry);
    (repeat split; try reflexivity; try congruence).
Qed.



(** ** The registry mirrors the store *)

Section coherence.
Implicit Types (rows : list whisper_row) (cache : gmap Z (gmap Z Z)).

Lemma mirrors_insert cache rows g u t now :
  mirrors cache rows → entry cache g u = None →
  mirrors (remember_whisper g u t cache) (insert_whisper g u t now rows).
Proof.
  intros Hm Hnone g' u' t'. rewrite entry_remember. unfold insert_whisper.
  case_decide as Hd.
  - destruct Hd as [-> ->]. split.
    + intros [= <-]. exists (WhisperRow g u t now None true). split.
      * apply elem_of_app. right. constructor.
      * split; [|done]. apply open_for_spec. done.
    + intros (r & Hin & Hopen & Ht). apply elem_of_app in Hin as [Hin|Hin].
      * assert (entry cache g u = Some (thread_id r)) as Hsome.
        { apply Hm. by exists r. }
        congruence.
      * apply list_elem_of_singleton in Hin. subst r. simpl in Ht. by subst.
  - rewrite (Hm g' u' t'). split; intros (r & Hin & Hopen & Ht).
    + exists r. split; [|done]. apply elem_of_app. by left.
    + apply elem_of_app in Hin as [Hin|Hin]; [by exists r|].
      apply list_elem_of_singleton in Hin. subst r.
      apply open_for_spec in Hopen as (? & ? & _). simpl in *.
      exfalso. apply Hd. done.
Qed.

Lemma single_open_insert cache rows g u t now :
  mirrors cache rows → entry cache g u = None → single_open rows →
  single_open (insert_whisper g u t now rows).
Proof.
  intros Hm Hnone Hs g' u'. rewrite open_count_insert.
  case_decide as Hd; [|specialize (Hs g' u'); lia].
  destruct Hd as [-> ->]. rewrite open_count_none; [lia|].
  intros r Hin. destruct (open_for g u r) eqn:Hopen; [|done].
  assert (entry cache g u = Some (thread_id r)) as Hsome.
  { apply Hm. by exists r. }
  congruence.
Qed.

Lemma single_owner_insert rows g u t now :
  (∀ r, r ∈ rows → thread_id r ≠ t) → single_owner rows →
  single_owner (insert_whisper g u t now rows).
Proof.
  intros Hfresh Hs r1 r2 H1 H2 Ho1 Ho2 Hg Ht. unfold insert_whisper in *.
  apply elem_of_app in H1 as [H1|H1]; apply elem_of_app in H2 as [H2|H2].
  - by apply Hs.
  - apply list_elem_of_singleton in H2. subst r2. simpl in Ht.
    by destruct (Hfresh r1 H1).
  - apply list_elem_of_singleton in H1. subst r1. simpl in Ht.
    by destruct (Hfresh r2 H2).
  - apply list_elem_of_singleton in H1, H2. by subst.
Qed.

Lemma mirrors_close cache rows g t now owner :
  mirrors cache rows → single_open rows → single_owner rows →
  select_open_owner g t rows = Some owner →
  mirrors (forget_whisper g owner cache) (update_closed g t now rows).
Proof.
  intros Hm Hone Hown Hsel g' u' t'. rewrite entry_forget.
  apply select_open_owner_Some in Hsel as (r0 & Hin0 & Hs0 & Hopen0 & Hu0).
  pose proof Hs0 as Hs0'. apply same_thread_spec in Hs0' as [Hg0 Ht0].
  assert (Hfor0 : open_for g owner r0 = true) by by apply open_for_spec.
  case_decide as Hd.
  - destruct Hd as [-> ->]. split; [done|].
    intros (r & Hin & Hopen & _).
    pose proof Hopen as Hopen'. apply open_for_spec in Hopen' as (_ & _ & Hio).
    apply update_closed_open in Hin as [Hin Hs]; [|done].
    assert (r = r0) by by eapply open_count_unique.
    congruence.
  - rewrite (Hm g' u' t'). split; intros (r & Hin & Hopen & Ht).
    + exists r. split; [|done]. apply update_closed_keeps; [done|].
      destruct (same_thread g t r) eqn:Hs; [|done]. exfalso. apply Hd.
      apply same_thread_spec in Hs as [Hrg Hrt].
      apply open_for_spec in Hopen as (Hg' & Hu' & Hio).
      split; [congruence|].
      rewrite <- Hu', <- Hu0. apply Hown; congruence.
    + pose proof Hopen as Hopen'. apply open_for_spec in Hopen' as (_ & _ & Hio).
      apply update_closed_open in Hin as [Hin _]; [|done]. by exists r.
Qed.

Lemma single_open_close rows g t now :
  single_open rows → single_open (update_closed g t now rows).
Proof.
  intros Hs g' u'. pose proof (open_count_update g t now g' u' rows).
  specialize (Hs g' u'). lia.
Qed.

Lemma single_owner_close rows g t now :
  single_owner rows → single_owner (update_closed g t now rows).
Proof.
  intros Hs r1 r2 H1 H2 Ho1 Ho2.
  apply update_closed_open in H1 as [H1 _]; [|done].
  apply update_closed_open in H2 as [H2 _]; [|done].
  by apply Hs.
Qed.
End coherence.

(** ** What a run can do to the store and the registry *)

(** [create_whisper], under every script: the store and the registry stay
    as they were, or one open row is appended for the caller and the
    created thread, which the registry then holds, the registry having held
    nothing for the caller before. *)
Lemma create_whisper_outcomes (i : interaction) (o : script) (w : world) :
  let u := caller_id (user i) in
  let w' := (run (create_whisper i) o w).2 in
  (whispers w' = whispers w ∧ _active_whispers w' = _active_whispers w)
  ∨ (∃ g k now,
       guild i = Some g
       ∧ entry (_active_whispers w) g u = None
       ∧ whispers w' = insert_whisper g u (snowflake o k) now (whispers w)
       ∧ _active_whispers w' = remember_whisper g u (snowflake o k) (_active_whispers w)).
Proof.
  intros u w'. subst w'.
  unfold create_whisper, _setup_whisper_channel, _create_whisper_thread.
  fold u. clearbody u.
  destruct w as [rows cache c1 c2 c3 chs j].
  destruct (guild i) as [g|].
  2: { exec_with idtac; left; done. }
  exec_with ltac:(try read_world);
    first [ left; split; reflexivity
          | right; exists g; do 2 eexists;
            split; [reflexivity|];
            split; [rewrite <- existing_whisper_entry; eassumption|];
            split; reflexivity ].
Qed.

(** [close_whisper], under every script: the store and the registry stay
    as they were, or every row of the thread is closed and the entry of the
    owner found by the look-up is dropped. *)
Lemma close_whisper_outcomes (i : interaction) (o : script) (w : world) :
  let w' := (run (close_whisper i) o w).2 in
  (whispers w' = whispers w ∧ _active_whispers w' = _active_whispers w)
  ∨ (∃ g t owner now,
       guild i = Some g ∧ channel i = Thread t
       ∧ select_open_owner g t (whispers w) = Some owner
       ∧ whispers w' = update_closed g t now (whispers w)
       ∧ _active_whispers w' = forget_whisper g owner (_active_whispers w)).
Proof.
  intros w'. subst w'. unfold close_whisper.
  destruct w as [rows cache c1 c2 c3 chs j].
  destruct (guild i) as [g|]; [|exec_with idtac; left; done].
  destruct (channel i) as [t|c]; [|exec_with idtac; left; done].
  destruct (user i) as [uid|uid p];
    exec_with ltac:(try read_close);
    first [ left; split; reflexivity
          | right; exists g, t; do 2 eexists;
            split; [reflexivity|]; split; [reflexivity|];
            split; [eassumption|]; split; [reflexivity|];
            first [reflexivity | skipped_pop; reflexivity] ].
Qed.

(** ** Loading the registry at start-up *)

Section loading.
Implicit Types (rows : list whisper_row) (cache : gmap Z (gmap Z Z)).

Lemma dict_of_rows_snoc ws p :
  dict_of_rows (ws ++ [p]) = <[p.1 := p.2]> (dict_of_rows ws).
Proof. unfold dict_of_rows. by rewrite fold_left_app. Qed.

Lemma select_open_in_guild_snoc g rows r :
  select_open_in_guild g (rows ++ [r])
  = select_open_in_guild g rows
    ++ if open_in_guild g r then [(user_id r, thread_id r)] else [].
Proof.
  unfold select_open_in_guild. rewrite List.filter_app, List.map_app. simpl.
  by destruct (open_in_guild g r).
Qed.

(** The comprehension keeps, for each user, the last open row. *)
Lemma dict_of_rows_select g u rows :
  dict_of_rows (select_open_in_guild g rows) !! u = last_open_thread g u rows.
Proof.
  unfold last_open_thread.
  induction rows as [|r rows IH] using rev_ind; [done|].
  rewrite select_open_in_guild_snoc, List.filter_app. simpl.
  unfold open_for at 2. unfold open_in_guild.
  destruct (guild_id r =? g) eqn:Eg; simpl.
  2: { rewrite !app_nil_r. exact IH. }
  destruct (is_open r) eqn:Eo; simpl.
  2: { rewrite andb_false_r, !app_nil_r. exact IH. }
  rewrite andb_true_r, dict_of_rows_snoc. simpl.
  destruct (user_id r =? u) eqn:Eu.
  - apply Z.eqb_eq in Eu. subst u. rewrite lookup_insert_eq.
    by rewrite last_snoc.
  - apply Z.eqb_neq in Eu. rewrite lookup_insert_ne by done.
    rewrite app_nil_r. exact IH.
Qed.

Lemma select_open_in_guild_nil g rows r :
  select_open_in_guild g rows = [] → r ∈ rows → guild_id r = g →
  is_open r = false.
Proof.
  unfold select_open_in_guild. intros Hnil Hin Hg.
  apply map_eq_nil in Hnil.
  destruct (is_open r) eqn:Ho; [|done].
  assert (Hf : In r (List.filter (open_in_guild g) rows)).
  { apply filter_In. split; [by apply list_elem_of_In|].
    unfold open_in_guild. rewrite Ho, andb_true_r. by apply Z.eqb_eq. }
  rewrite Hnil in Hf. destruct Hf.
Qed.

(** With at most one open row per pair, the last open row is the open
    row. *)
Lemma last_open_thread_single g u t rows :
  (open_count g u rows ≤ 1)%nat →
  last_open_thread g u rows = Some t ↔
  ∃ r, r ∈ rows ∧ open_for g u r = true ∧ thread_id r = t.
Proof.
  unfold open_count, last_open_thread. intros Hlen. split.
  - destruct (last _) as [r|] eqn:Hl; simpl; [|done]. intros [= <-].
    apply last_Some_elem_of, elem_of_open_filter in Hl as [? ?]. by exists r.
  - intros (r & Hin & Hopen & <-).
    assert (Hf : r ∈ List.filter (open_for g u) rows) by by apply elem_of_open_filter.
    destruct (List.filter (open_for g u) rows) as [|x [|y l]]; simpl in Hlen.
    + by apply elem_of_nil in Hf.
    + apply list_elem_of_singleton in Hf. by subst.
    + lia.
Qed.

Lemma entry_loaded guilds rows cache g u :
  entry (loaded guilds rows cache) g u
  = if decide (g ∈ guilds ∧ select_open_in_guild g rows ≠ [])
    then last_open_thread g u rows
    else entry cache g u.
Proof.
  revert cache. induction guilds as [|a rest IH]; intros cache; cbn [loaded].
  - rewrite decide_False; [done|]. intros [Hin _]. by apply elem_of_nil in Hin.
  - rewrite IH. clear IH.
    destruct (decide (g ∈ rest ∧ select_open_in_guild g rows ≠ [])) as [[Hin Hne]|Hno].
    + rewrite decide_True; [done|]. split; [by apply elem_of_cons; right|done].
    + destruct (decide (a = g)) as [->|Hag].
      * destruct (select_open_in_guild g rows) as [|p ws] eqn:Hsel.
        -- rewrite decide_False; [done|]. intros [_ ?]. done.
        -- rewrite decide_True by (split; [constructor|done]).
           unfold entry. rewrite lookup_insert_eq. simpl.
           rewrite <- Hsel. apply dict_of_rows_select.
      * rewrite decide_False.
        2: { intros [Hin Hne]. apply Hno. split; [|done].
             apply elem_of_cons in Hin as [Hin|Hin]; [congruence|done]. }
        destruct (select_open_in_guild a rows); [done|].
        unfold entry. by rewrite lookup_insert_ne.
Qed.

(** [cog_load] when every fetch goes through. *)
Lemma cog_load_calm guilds (o : script) (w : world) :
  calm o →
  cog_load guilds o w
  = (Returned tt,
     World (whispers w) (loaded guilds (whispers w) (_active_whispers w))
           (cfg_whisper_channel w) (cfg_whisper_enabled w)
           (cfg_moderation_enabled w) (channels w)
           (journal w ++ List.map (λ g, Called (db_fetchall g) None) guilds)).
Proof.
  intros Hcalm. revert w. induction guilds as [|g rest IH]; intros w.
  - destruct w. simpl. unfold ret. by rewrite app_nil_r.
  - unfold calm in Hcalm. destruct w as [rows cache c1 c2 c3 chs j].
    cbn [cog_load]. unfold bind at 1.
    assert (Hstep :
      try_except
        (let* ws := db_fetchall_open g in
         match ws with
         | [] => ret tt
         | _ :: _ => modify (set_active_whispers (<[g := dict_of_rows ws]>))
         end)
        (λ _, ret tt) o (World rows cache c1 c2 c3 chs j)
      = (Returned tt,
         World rows
               match select_open_in_guild g rows with
               | [] => cache
               | ws => <[g := dict_of_rows ws]> cache
               end
               c1 c2 c3 chs (j ++ [Called (db_fetchall g) None]))).
    { unfold try_except, db_fetchall_open, bind, await, get, ret, modify.
      rewrite Hcalm. simpl.
      by destruct (select_open_in_guild g rows). }
    rewrite Hstep, IH. cbn. by rewrite <- app_assoc.
Qed.
End loading.

(** ** Reachable worlds *)

Lemma last_open_thread_nil (g u : Z) (rows : list whisper_row) :
  select_open_in_guild g rows = [] → last_open_thread g u rows = None.
Proof.
  intros Hnil. unfold last_open_thread.
  destruct (List.filter (open_for g u) rows) as [|x l] eqn:Hf; [done|].
  assert (Hx : x ∈ List.filter (open_for g u) rows) by (rewrite Hf; constructor).
  apply elem_of_open_filter in Hx as [Hin Hopen].
  apply open_for_spec in Hopen as (Hg & _ & Ho).
  rewrite (select_open_in_guild_nil g rows x Hnil Hin Hg) in Ho. discriminate.
Qed.

Lemma run_cog_load_calm (guilds : list Z) (o : script) (w : world) :
  calm o →
  run (cog_load guilds) o w
  = (Returned tt,
     World (whispers w) (loaded guilds (whispers w) (_active_whispers w))
           (cfg_whisper_channel w) (cfg_whisper_enabled w)
           (cfg_moderation_enabled w) (channels w)
           (List.map (λ g, Called (db_fetchall g) None) guilds)).
Proof.
  intros Hcalm. unfold run. rewrite cog_load_calm by done. by destruct w.
Qed.

Lemma coherent_load (w : world) (guilds : list Z) (o : script) :
  _active_whispers w = ∅ →
  single_open (whispers w) → single_owner (whispers w) →
  (∀ r, r ∈ whispers w → is_open r = true → guild_id r ∈ guilds) →
  calm o →
  coherent (run (cog_load guilds) o w).2.
Proof.
  intros Hempty Hone Hown Hconn Hcalm. rewrite run_cog_load_calm by done.
  split; simpl; [|done|done].
  intros g u t. rewrite entry_loaded, Hempty.
  rewrite <- (last_open_thread_single g u t (whispers w) (Hone g u)).
  case_decide as Hd; [done|].
  unfold entry. rewrite lookup_empty. simpl.
  split; [done|]. intros Hlast. exfalso. apply Hd.
  apply (last_open_thread_single g u t (whispers w) (Hone g u)) in Hlast
    as (r & Hin & Hopen & _).
  apply open_for_spec in Hopen as (Hg & _ & Ho). split.
  - rewrite <- Hg. by apply Hconn.
  - intros Hnil.
    rewrite (select_open_in_guild_nil g (whispers w) r Hnil Hin Hg) in Ho.
    discriminate.
Qed.

Lemma coherent_open (w : world) (i : interaction) (o : script) :
  coherent w → fresh_threads o (whispers w) →
  coherent (run (create_whisper i) o w).2.
Proof.
  intros [Hm Hone Hown] Hfresh.
  destruct (create_whisper_outcomes i o w) as [[Hw Hc]|(g & k & now & _ & Hnone & Hw & Hc)].
  - split; rewrite ?Hw, ?Hc; done.
  - split; rewrite ?Hw, ?Hc.
    + by apply mirrors_insert.
    + by eapply single_open_insert.
    + apply single_owner_insert; [|done]. intros r Hin. by apply Hfresh.
Qed.

Lemma coherent_close (w : world) (i : interaction) (o : script) :
  coherent w → coherent (run (close_whisper i) o w).2.
Proof.
  intros [Hm Hone Hown].
  destruct (close_whisper_outcomes i o w)
    as [[Hw Hc]|(g & t & owner & now & _ & _ & Hsel & Hw & Hc)].
  - split; rewrite ?Hw, ?Hc; done.
  - split; rewrite ?Hw, ?Hc.
    + by apply mirrors_close.
    + by apply single_open_close.
    + by apply single_owner_close.
Qed.

Lemma reachable_coherent (w : world) : reachable w → coherent w.
Proof.
  induction 1 as [w guilds o He Hone Hown Hconn Hcalm
                 | w i o _ IH Hfresh | w i o _ IH].
  - by apply coherent_load.
  - by apply coherent_open.
  - by apply coherent_close.
Qed.

(** ** One open row per user, without conditions on the threads *)

Lemma covers_load (guilds : list Z) (rows : list whisper_row) (cache : gmap Z (gmap Z Z)) :
  (∀ r, r ∈ rows → is_open r = true → guild_id r ∈ guilds) →
  covers (loaded guilds rows cache) rows.
Proof.
  intros Hconn r Hin Hopen. rewrite entry_loaded.
  rewrite decide_True.
  - unfold last_open_thread. apply fmap_is_Some, last_is_Some.
    intros Hnil.
    assert (Hr : r ∈ List.filter (open_for (guild_id r) (user_id r)) rows).
    { apply elem_of_open_filter. split; [done|]. by apply open_for_spec. }
    rewrite Hnil in Hr. by apply elem_of_nil in Hr.
  - split; [by apply Hconn|]. intros Hnil.
    rewrite (select_open_in_guild_nil _ rows r Hnil Hin eq_refl) in Hopen.
    discriminate.
Qed.

Lemma covers_insert cache rows g u t now :
  covers cache rows →
  covers (remember_whisper g u t cache) (insert_whisper g u t now rows).
Proof.
  intros Hcov r Hin Hopen. rewrite entry_remember.
  case_decide as Hd; [done|].
  apply elem_of_app in Hin as [Hin|Hin]; [by apply Hcov|].
  apply list_elem_of_singleton in Hin. subst r. simpl in Hd.
  exfalso. by apply Hd.
Qed.

Lemma single_open_insert_covered cache rows g u t now :
  covers cache rows → entry cache g u = None → single_open rows →
  single_open (insert_whisper g u t now rows).
Proof.
  intros Hcov Hnone Hs g' u'. rewrite open_count_insert.
  case_decide as Hd; [|specialize (Hs g' u'); lia].
  destruct Hd as [-> ->]. rewrite open_count_none; [lia|].
  intros r Hin. destruct (open_for g u r) eqn:Hopen; [|done].
  apply open_for_spec in Hopen as (Hg & Hu & Ho).
  destruct (Hcov r Hin Ho) as [t' Ht']. congruence.
Qed.

Lemma covers_close cache rows g t now owner :
  covers cache rows → single_open rows →
  select_open_owner g t rows = Some owner →
  covers (forget_whisper g owner cache) (update_closed g t now rows).
Proof.
  intros Hcov Hone Hsel r Hin Hopen. rewrite entry_forget.
  apply update_closed_open in Hin as [Hin Hother]; [|done].
  case_decide as Hd; [|by apply Hcov].
  destruct Hd as [Hg Hu]. exfalso.
  apply select_open_owner_Some in Hsel as (r0 & Hin0 & Hs0 & Hopen0 & Hu0).
  pose proof Hs0 as Hs0'. apply same_thread_spec in Hs0' as [Hg0 Ht0].
  assert (r = r0) as ->.
  { apply (open_count_unique g owner rows); [apply Hone|done| |done|];
      by apply open_for_spec. }
  congruence.
Qed.

Lemma running_single_open (w : world) :
  running w → single_open (whispers w) ∧ covers (_active_whispers w) (whispers w).
Proof.
  induction 1 as [w guilds o Hone Hconn Hcalm | w i o _ [Hone Hcov] | w i o _ [Hone Hcov]].
  - rewrite run_cog_load_calm by done. simpl.
    split; [done|]. by apply covers_load.
  - destruct (create_whisper_outcomes i o w)
      as [[Hw Hc]|(g & k & now & _ & Hnone & Hw & Hc)]; rewrite Hw, Hc.
    + done.
    + split; [by eapply single_open_insert_covered|by apply covers_insert].
  - destruct (close_whisper_outcomes i o w)
      as [[Hw Hc]|(g & t & owner & now & _ & _ & Hsel & Hw & Hc)]; rewrite Hw, Hc.
    + done.
    + split; [by apply single_open_close|by apply covers_close].
Qed.

(** ** Store first, registry second *)

Lemma store_first_spec (j : list event) (prev : option statement) :
  store_first prev j = true →
  ∀ (n : nat) op, j !! n = Some (Cached op) →
    (n = 0%nat ∧ ∃ q, prev = Some q ∧ writes_for op q = true)
    ∨ (∃ (m : nat) q, n = S m ∧ j !! m = Some (Called (db_execute q) None)
                      ∧ writes_for op q = true).
Proof.
  revert prev. induction j as [|ev j IH]; intros prev Hsf n op Hn; [done|].
  destruct n as [|n].
  - simpl in Hn. injection Hn as ->. simpl in Hsf.
    apply andb_true_iff in Hsf as [Hq _]. left. split; [done|].
    destruct prev as [q|]; [|done]. by exists q.
  - simpl in Hn. right.
    assert (∃ prev', store_first prev' j = true
                     ∧ (∀ q, prev' = Some q → ev = Called (db_execute q) None))
      as (prev' & Hsf' & Hprev').
    { destruct ev as [c [e|]|op']; simpl in Hsf.
      - exists None. split; [by destruct c|done].
      - destruct c; try (exists None; split; [done|done]).
        exists (Some q). split; [done|]. by intros ? [= <-].
      - apply andb_true_iff in Hsf as [_ Hsf]. exists None. done. }
    destruct (IH prev' Hsf' n op Hn) as [[-> (q & Hq & Hw)]|(m & q & -> & Hm & Hw)].
    + exists 0%nat, q. split; [done|]. split; [|done]. simpl. f_equal. by apply Hprev'.
    + exists (S m), q. done.
Qed.

Lemma create_whisper_journal (i : interaction) (o : script) (w : world) :
  let w' := (run (create_whisper i) o w).2 in
  store_first None (journal w') = true
  ∧ (existsb is_cached (journal w') = false →
     _active_whispers w' = _active_whispers w)
  ∧ (existsb failed_write (journal w') = true →
     _active_whispers w' = _active_whispers w
     ∧ whispers w' = whispers w
     ∧ (∃ r, Called (followup_send CreateFailed) r ∈ journal w')
     ∧ ∀ t, WhisperCreated t ∉ replies (journal w')).
Proof.
  intros w'. subst w'.
  unfold create_whisper, _setup_whisper_channel, _create_whisper_thread.
  destruct w as [rows cache c1 c2 c3 chs j].
  destruct (guild i) as [g|];
    exec_with ltac:(try read_world);
    (split; [rewrite ?Z.eqb_refl; reflexivity|]);
    (split; [first [intros _; reflexivity | intros Hf; discriminate Hf]|]);
    first [ intros Hf; discriminate Hf
          | intros _; split; [reflexivity|]; split; [reflexivity|];
            split; [eexists; repeat constructor|intros t; absent] ].
Qed.

Lemma close_whisper_journal (i : interaction) (o : script) (w : world) :
  let w' := (run (close_whisper i) o w).2 in
  store_first None (journal w') = true
  ∧ (existsb is_cached (journal w') = false →
     _active_whispers w' = _active_whispers w)
  ∧ (existsb failed_write (journal w') = true →
     _active_whispers w' = _active_whispers w
     ∧ whispers w' = whispers w
     ∧ (∃ r, Called (response_send_message CloseError) r ∈ journal w')
     ∧ WhisperClosed ∉ replies (journal w')).
Proof.
  intros w'. subst w'. unfold close_whisper.
  destruct w as [rows cache c1 c2 c3 chs j].
  destruct (guild i) as [g|]; [|exec_with idtac; by repeat split].
  destruct (channel i) as [t|c]; [|exec_with idtac; by repeat split].
  destruct (user i) as [uid|uid p];
    exec_with ltac:(try read_close);
    (split; [rewrite ?Z.eqb_refl; reflexivity|]);
    (split; [first [intros _; reflexivity | intros Hf; discriminate Hf]|]);
    first [ intros Hf; discriminate Hf
          | intros _; split; [reflexivity|]; split; [reflexivity|];
            split; [eexists; repeat constructor|absent] ].
Qed.

(** ** Start-up load *)

(** C3, as the code has it. [cog_load] does not clear the registry. When
    every fetch goes through, the store is untouched, the cached mapping of
    each connected server with at least one open row is replaced by the
    one built from its open rows (per user, the thread of the last open
    row), and every other entry stays as it was. Started from the empty
    registry, [lookup] for a pair of a connected server returns the thread
    of the pair's last open row, or nothing if the pair has none; with at
    most one open row for the pair, that is exactly the thread of its open
    row. *)
Theorem cog_load_lookup
    (guilds : list Z) (o : script) (w : world) (g u : Z) :
  calm o →
  let w' := (run (cog_load guilds) o w).2 in
  whispers w' = whispers w
  ∧ lookup w' g u
    = (if decide (g ∈ guilds ∧ select_open_in_guild g (whispers w) ≠ [])
       then last_open_thread g u (whispers w)
       else lookup w g u)
  ∧ (_active_whispers w = ∅ → g ∈ guilds →
     lookup w' g u = last_open_thread g u (whispers w)
     ∧ ((open_count g u (whispers w) ≤ 1)%nat →
        ∀ t, lookup w' g u = Some t ↔
             ∃ r, r ∈ whispers w ∧ open_for g u r = true ∧ thread_id r = t)).
Proof.
  intros Hcalm w'. subst w'. rewrite run_cog_load_calm by done.
  rewrite !lookup_entry. simpl. rewrite entry_loaded.
  split; [done|]. split; [done|].
  intros Hempty Hin.
  assert (Hlast : (if decide (g ∈ guilds ∧ select_open_in_guild g (whispers w) ≠ [])
                   then last_open_thread g u (whispers w)
                   else entry (_active_whispers w) g u)
                  = last_open_thread g u (whispers w)).
  { case_decide as Hd; [done|]. rewrite Hempty. unfold entry.
    rewrite lookup_empty. simpl. symmetry. apply last_open_thread_nil.
    destruct (select_open_in_guild g (whispers w)) eqn:Hsel; [done|].
    exfalso. apply Hd. done. }
  rewrite Hlast. split; [done|].
  intros Hone t. by apply last_open_thread_single.
Qed.

(** C3, as stated, fails: a registry entry whose row is closed survives
    [cog_load], because a server without open rows is skipped. *)
Lemma cog_load_keeps_stale_entry :
  lookup (run (cog_load [1]) quiet stale).2 1 7 = Some 50
  ∧ ¬ ∃ r, r ∈ whispers stale ∧ open_for 1 7 r = true.
Proof.
  split; [reflexivity|].
  intros (r & Hin & Hopen). apply list_elem_of_singleton in Hin. subst r.
  discriminate Hopen.
Qed.

(** ** The invariant *)

(** C2, as the code has it. In every reachable world the registry has an
    entry for a pair exactly when the store has an open row of that pair,
    and the entry is that row's thread. *)
Theorem registry_mirrors_store (w : world) (g u : Z) :
  reachable w →
  (is_Some (lookup w g u) ↔
   ∃ r, r ∈ whispers w ∧ guild_id r = g ∧ user_id r = u ∧ is_open r = true)
  ∧ (∀ t, lookup w g u = Some t ↔
          ∃ r, r ∈ whispers w ∧ open_for g u r = true ∧ thread_id r = t).
Proof.
  intros Hr. apply reachable_coherent in Hr as [Hm _ _].
  split; [|intros t; apply Hm].
  split.
  - intros [t Ht]. apply Hm in Ht as (r & Hin & Hopen & _).
    apply open_for_spec in Hopen. by exists r.
  - intros (r & Hin & Hopen). exists (thread_id r). apply Hm.
    exists r. split; [done|]. split; [|done]. by apply open_for_spec.
Qed.

(** C2, as stated, fails right after the rebuild: when the fetch of a
    server raises, [cog_load] logs and goes on, and the registry has no
    entry for the open row of the store. *)
Lemma failed_fetch_leaves_registry_behind :
  let w' := (run (cog_load [1]) (failing_at 0 OtherError) at_boot).2 in
  ¬ (is_Some (lookup w' 1 7) ↔
     ∃ r, r ∈ whispers w' ∧ guild_id r = 1 ∧ user_id r = 7 ∧ is_open r = true).
Proof.
  intros w' [_ Hback].
  assert (Hsome : is_Some (lookup w' 1 7)).
  { apply Hback. exists (WhisperRow 1 7 50 10 None true).
    split; [constructor|done]. }
  destruct Hsome as [t Ht]. discriminate Ht.
Qed.

(** The other premises of [reachable] are needed as well. An open row of
    a server outside [bot.guilds] is never loaded. *)
Lemma unconnected_server_not_loaded :
  lookup (run (cog_load [1]) quiet elsewhere).2 2 7 = None
  ∧ ∃ r, r ∈ whispers (run (cog_load [1]) quiet elsewhere).2
         ∧ open_for 2 7 r = true.
Proof.
  split; [reflexivity|]. exists (WhisperRow 2 7 60 10 None true).
  split; [constructor|reflexivity].
Qed.

(** With two open rows for a user, closing the thread the registry holds
    drops the entry while the other row stays open. *)
Lemma second_open_row_outlives_close :
  let w1 := (run (cog_load [1]) quiet twice_open).2 in
  let w2 := (run (close_whisper (Interaction (Some 1) (Member 7 no_permissions)
                                             (Thread 51))) quiet w1).2 in
  lookup w1 1 7 = Some 51
  ∧ lookup w2 1 7 = None
  ∧ ∃ r, r ∈ whispers w2 ∧ open_for 1 7 r = true.
Proof.
  split; [reflexivity|]. split; [reflexivity|].
  exists (WhisperRow 1 7 50 10 None true). split; [constructor|reflexivity].
Qed.

(** ** One open thread per user and server *)

(** C1, as the code has it. In a server where the whisper feature is
    enabled, [create_whisper] for a user the registry already holds an open
    thread for leaves the world as it was under every script (no row
    inserted, no thread or channel created, registry untouched) and, when
    the configuration read and the reply go through, answers with the
    existing thread. After a start-up load in which every fetch went
    through, over a store holding at most one open row per user and server
    whose open rows all belong to connected servers, and any sequence of
    [create_whisper] and [close_whisper] run one after the other under any
    scripts, the store holds at most one open row per user and server. *)
Theorem open_with_existing_entry
    (i : interaction) (g t : Z) (o : script) (w w0 : world) :
  guild i = Some g →
  default true (cfg_whisper_enabled w !! g) = true →
  lookup w g (caller_id (user i)) = Some t →
  let w' := (run (create_whisper i) o w).2 in
  durable w' = durable w
  ∧ existsb mutating (journal w') = false
  ∧ (raises o 0%nat = None → raises o 1%nat = None →
     (run (create_whisper i) o w).1 = Returned tt
     ∧ replies (journal w') = [AlreadyActive t])
  ∧ (running w0 → ∀ g' u', (open_count g' u' (whispers w0) ≤ 1)%nat).
Proof.
  intros Hg Hen Hentry w'. subst w'.
  destruct (create_whisper_existing i g t o w Hg Hen Hentry) as (Hd & Hmut & Hrep).
  split; [done|]. split; [done|]. split.
  - intros H0 H1. destruct (Hrep H0 H1) as [Hret Hj]. split; [done|].
    by rewrite Hj.
  - intros Hr. by apply running_single_open in Hr as [Hone _].
Qed.

(** C1, as stated, fails where the feature has been switched off: the
    check of the flag comes first and the user is told that whispers are
    disabled, not which thread they have. *)
Lemma disabled_server_hides_existing_thread :
  lookup switched_off 1 7 = Some 50
  ∧ replies (journal (run (create_whisper from_user_7) quiet switched_off).2)
    = [WhisperDisabled]
  ∧ AlreadyActive 50
    ∉ replies (journal (run (create_whisper from_user_7) quiet switched_off).2).
Proof.
  split; [reflexivity|]. split; [reflexivity|].
  change (AlreadyActive 50 ∉ [WhisperDisabled]). absent.
Qed.

(** The start-up load is needed for the second half: when the fetch of a
    server raised, its open rows have no registry entry, and the owner of
    one gets a second open row. *)
Lemma failed_fetch_allows_second_open_row :
  let w1 := (run (cog_load [1]) (failing_at 0 OtherError) at_boot).2 in
  let w2 := (run (create_whisper from_user_7) quiet w1).2 in
  open_count 1 7 (whispers at_boot) = 1%nat
  ∧ open_count 1 7 (whispers w2) = 2%nat.
Proof. split; reflexivity. Qed.

(** C8. In [create_whisper] and in [close_whisper], under every script:
    each registry write of the run comes immediately after the store
    statement it belongs to, and that statement went through; a run without
    a registry write leaves the registry as it was; and when the store
    statement raises, registry and store are as they were, the failure
    message is sent to the caller and the success message never is. *)
Theorem store_write_precedes_cache (i : interaction) (o : script) (w : world) :
  let opened := (run (create_whisper i) o w).2 in
  let closed := (run (close_whisper i) o w).2 in
  (∀ (n : nat) op, journal opened !! n = Some (Cached op) →
     ∃ (m : nat) q, n = S m
       ∧ journal opened !! m = Some (Called (db_execute q) None)
       ∧ writes_for op q = true)
  ∧ (∀ (n : nat) op, journal closed !! n = Some (Cached op) →
     ∃ (m : nat) q, n = S m
       ∧ journal closed !! m = Some (Called (db_execute q) None)
       ∧ writes_for op q = true)
  ∧ (existsb is_cached (journal opened) = false →
     _active_whispers opened = _active_whispers w)
  ∧ (existsb is_cached (journal closed) = false →
     _active_whispers closed = _active_whispers w)
  ∧ (existsb failed_write (journal opened) = true →
     _active_whispers opened = _active_whispers w
     ∧ whispers opened = whispers w
     ∧ (∃ r, Called (followup_send CreateFailed) r ∈ journal opened)
     ∧ ∀ t, WhisperCreated t ∉ replies (journal opened))
  ∧ (existsb failed_write (journal closed) = true →
     _active_whispers closed = _active_whispers w
     ∧ whispers closed = whispers w
     ∧ (∃ r, Called (response_send_message CloseError) r ∈ journal closed)
     ∧ WhisperClosed ∉ replies (journal closed)).
Proof.
  intros opened closed.
  destruct (create_whisper_journal i o w) as (Ho1 & Ho2 & Ho3).
  destruct (close_whisper_journal i o w) as (Hc1 & Hc2 & Hc3).
  fold opened in Ho1, Ho2, Ho3. fold closed in Hc1, Hc2, Hc3.
  repeat split; try done.
  - intros n op Hn.
    destruct (store_first_spec _ _ Ho1 n op Hn) as [[_ (q & Hq & _)]|H]; done.
  - intros n op Hn.
    destruct (store_first_spec _ _ Hc1 n op Hn) as [[_ (q & Hq & _)]|H]; done.
  - by apply Ho3.
  - by apply Ho3.
  - by apply Ho3.
  - by apply Ho3.
  - by apply Hc3.
  - by apply Hc3.
  - by apply Hc3.
  - by apply Hc3.
Qed.

(** ** The theorems at work on the worked inputs *)

Lemma at_boot_single_open : single_open (whispers at_boot).
Proof.
  intros g u. unfold open_count, open_for. cbn -[Z.eqb].
  destruct (1 =? g); destruct (7 =? u); destruct (8 =? u); simpl; lia.
Defined.

Lemma at_boot_single_owner : single_owner (whispers at_boot).
Proof.
  intros r1 r2 H1 H2 Ho1 Ho2 _ _. simpl in H1, H2.
  each_row H1; each_row H2; first [reflexivity | discriminate].
Defined.

Lemma at_boot_connected :
  ∀ r, r ∈ whispers at_boot → is_open r = true → guild_id r ∈ [1].
Proof.
  intros r H _. simpl in H. each_row H; constructor.
Defined.

Lemma quiet_calm : calm quiet.
Proof. intros k. reflexivity. Defined.

Lemma loaded_world_reachable : reachable loaded_world.
Proof.
  apply reachable_load.
  - reflexivity.
  - exact at_boot_single_open.
  - exact at_boot_single_owner.
  - exact at_boot_connected.
  - exact quiet_calm.
Defined.

Lemma after_session_reachable : reachable after_session.
Proof.
  apply reachable_close, reachable_open; [exact loaded_world_reachable|].
  intros k r H. change (whispers loaded_world) with (whispers at_boot) in H.
  simpl in H. each_row H; simpl; lia.
Defined.

Lemma after_session_running : running after_session.
Proof.
  apply running_close, running_open, running_load.
  - exact at_boot_single_open.
  - exact at_boot_connected.
  - exact quiet_calm.
Defined.

Lemma mod_check_admin_bypass_and_flag_witness :
  (run (_check_mod_permissions
          (Interaction (Some 1) (Member 7 admin_only) (OtherChannel 3)))
       quiet switched_off).1 = Returned true
  ∧ (run (_check_mod_permissions
            (Interaction (Some 1) (Member 7 kick_only) (OtherChannel 3)))
         quiet
         (World [] ∅ ∅ ∅ {[ 1 := false ]} ∅ [])).1 = Returned false.
Proof.
  split.
  - apply (mod_check_admin_bypass_and_flag
             (Interaction (Some 1) (Member 7 admin_only) (OtherChannel 3))
             1 7 admin_only (KickContext true 10 8 2) quiet switched_off
             eq_refl eq_refl).
    reflexivity.
  - apply (mod_check_admin_bypass_and_flag
             (Interaction (Some 1) (Member 7 kick_only) (OtherChannel 3))
             1 7 kick_only (KickContext true 10 8 2) quiet
             (World [] ∅ ∅ ∅ {[ 1 := false ]} ∅ [])
             eq_refl eq_refl); reflexivity.
Defined.

Lemma close_unknown_thread_refused_witness :
  journal (run (close_whisper (Interaction (Some 1) (Member 8 no_permissions) (Thread 40)))
               quiet loaded_world).2
  = [Called (db_fetchone 1 40) None;
     Called (response_send_message NotAWhisperThread) None].
Proof.
  apply (close_unknown_thread_refused
           (Interaction (Some 1) (Member 8 no_permissions) (Thread 40))
           1 40 quiet loaded_world eq_refl eq_refl); [|reflexivity..].
  intros r H. change (whispers loaded_world) with (whispers at_boot) in H.
  simpl in H. each_row H; first [reflexivity | discriminate].
Defined.

Lemma close_by_stranger_refused_witness :
  durable (run (close_whisper (in_thread_50 (Member 9 kick_only))) quiet loaded_world).2
  = durable loaded_world.
Proof.
  apply (close_by_stranger_refused (in_thread_50 (Member 9 kick_only))
           1 50 7 quiet loaded_world eq_refl eq_refl eq_refl).
  - simpl. lia.
  - reflexivity.
Defined.

Lemma close_whisper_success_witness :
  journal (run (close_whisper (in_thread_50 (Member 7 no_permissions)))
               quiet loaded_world).2
  = [Called (db_fetchone 1 50) None;
     Called (thread_send 50 ClosedWhisperEmbed) None;
     Called (db_execute (UpdateClosed 1 50 9002)) None;
     Cached (cache_pop 1 7);
     Called (thread_edit 50) None;
     Called (response_send_message WhisperClosed) None]
  ∧ lookup (run (close_whisper (in_thread_50 (Member 7 no_permissions)))
                quiet loaded_world).2 1 7 = None
  ∧ journal (run (close_whisper (in_thread_50 (Member 7 no_permissions)))
                 quiet at_boot).2
    = [Called (db_fetchone 1 50) None;
       Called (thread_send 50 ClosedWhisperEmbed) None;
       Called (db_execute (UpdateClosed 1 50 9002)) None;
       Called (thread_edit 50) None;
       Called (response_send_message WhisperClosed) None].
Proof.
  pose proof (close_whisper_success (in_thread_50 (Member 7 no_permissions))
                1 50 7 7 no_permissions quiet loaded_world
                eq_refl eq_refl eq_refl eq_refl (or_intror eq_refl) quiet_calm)
    as (_ & Hloaded & _ & _ & _ & Hgone).
  pose proof (close_whisper_success (in_thread_50 (Member 7 no_permissions))
                1 50 7 7 no_permissions quiet at_boot
                eq_refl eq_refl eq_refl eq_refl (or_intror eq_refl) quiet_calm)
    as (_ & Hboot & _).
  split; [exact Hloaded|]. split; [exact Hgone|exact Hboot].
Defined.

Lemma kick_check_failure_propagates_witness :
  (run (kick (Interaction (Some 1) (Member 7 kick_only) (OtherChannel 3))
             (KickContext true 10 8 2))
       (failing_at 0 OtherError) loaded_world).1 = Raised OtherError.
Proof.
  pose proof (kick_check_failure_propagates
                (Interaction (Some 1) (Member 7 kick_only) (OtherChannel 3))
                1 7 kick_only (KickContext true 10 8 2)
                (failing_at 0 OtherError) loaded_world OtherError
                eq_refl eq_refl eq_refl eq_refl) as [Hread _].
  apply Hread. reflexivity.
Defined.


Lemma cog_load_lookup_witness :
  lookup (run (cog_load [1]) quiet at_boot).2 1 7 = Some 50
  ↔ ∃ r, r ∈ whispers at_boot ∧ open_for 1 7 r = true ∧ thread_id r = 50.
Proof.
  apply (cog_load_lookup [1] quiet at_boot 1 7 quiet_calm).
  - reflexivity.
  - constructor.
  - exact (at_boot_single_open 1 7).
Defined.

Lemma registry_mirrors_store_witness :
  (is_Some (lookup after_session 1 9) ↔
   ∃ r, r ∈ whispers after_session ∧ guild_id r = 1 ∧ user_id r = 9
        ∧ is_open r = true)
  ∧ (is_Some (lookup after_session 1 7) ↔
     ∃ r, r ∈ whispers after_session ∧ guild_id r = 1 ∧ user_id r = 7
          ∧ is_open r = true).
Proof.
  split.
  - apply (registry_mirrors_store after_session 1 9 after_session_reachable).
  - apply (registry_mirrors_store after_session 1 7 after_session_reachable).
Defined.

Lemma open_with_existing_entry_witness :
  replies (journal (run (create_whisper from_user_7) quiet loaded_world).2)
  = [AlreadyActive 50]
  ∧ (open_count 1 9 (whispers after_session) ≤ 1)%nat.
Proof.
  pose proof (open_with_existing_entry from_user_7 1 50 quiet loaded_world
                after_session eq_refl eq_refl eq_refl) as (_ & _ & Hreply & Hone).
  split.
  - apply Hreply; reflexivity.
  - apply Hone. exact after_session_running.
Defined.

Lemma store_write_precedes_cache_witness :
  _active_whispers (run (create_whisper from_user_9) (failing_at 8 OtherError) loaded_world).2
  = _active_whispers loaded_world
  ∧ _active_whispers
      (run (close_whisper (in_thread_50 (Member 7 no_permissions)))
           (failing_at 2 OtherError) loaded_world).2
    = _active_whispers loaded_world.
Proof.
  split.
  - pose proof (store_write_precedes_cache from_user_9 (failing_at 8 OtherError)
                  loaded_world) as (_ & _ & _ & _ & Hopen & _).
    apply Hopen. reflexivity.
  - pose proof (store_write_precedes_cache (in_thread_50 (Member 7 no_permissions))
                  (failing_at 2 OtherError) loaded_world) as (_ & _ & _ & _ & _ & Hclose).
    apply Hclose. reflexivity.
Defined.

(** ** More on [kick] *)

(** Case analysis on what [kick] reads. *)
Ltac read_kick :=
  match goal with
  | |- context [default true (?m !! ?g)] => destruct (m !! g) as [[|]|] eqn:?
  | |- context [me_kick_members ?k] => destruct (me_kick_members k) eqn:?
  | |- context [?a <=? ?b] => destruct (Z.leb_spec a b)
  | |- context [kick_members ?p || ban_members ?p] =>
      destruct (kick_members p || ban_members p) eqn:?
  | |- context [is_http_exception ?e] => destruct e
  | |- context [is_forbidden ?e] => destruct e
  end.

(** X1. Under every script, [kick] calls [member.kick] only for a caller
    the permission check lets through, when the bot itself holds
    [kick_members] and the member's top role is strictly below the bot's. *)
Theorem kick_only_when_allowed
    (i : interaction) (k : kick_context) (o : script) (w : world) :
  existsb kick_called (journal (run (kick i k) o w).2) = true →
  (run (_check_mod_permissions i) o w).1 = Returned true
  ∧ me_kick_members k = true
  ∧ member_top_role k < me_top_role k.
Proof.
  unfold kick, _check_mod_permissions, _send_user_dm.
  destruct w as [rows cache c1 c2 c3 chs j].
  destruct (guild i) as [g|]; [|exec_with idtac; discriminate].
  destruct (user i) as [uid|uid p]; [exec_with idtac; discriminate|].
  destruct (administrator p || manage_guild p) eqn:Hp;
    exec_with ltac:(try read_kick);
    first [discriminate | intros _; repeat split; first [reflexivity | lia]].
Qed.

(** X2. Under every script, [kick] writes the moderation log only after
    [member.kick] went through, tells the moderator that the member has
    been kicked only after both the kick and the log entry went through,
    and reports the direct message as sent exactly when it was delivered. *)
Theorem kick_reports_what_happened
    (i : interaction) (k : kick_context) (o : script) (w : world) :
  let j := journal (run (kick i k) o w).2 in
  (existsb log_called j = true → existsb kick_done j = true)
  ∧ (existsb told_kicked j = true →
     existsb kick_done j = true ∧ existsb log_done j = true)
  ∧ (existsb told_dm_sent j = true ↔
     existsb told_kicked j = true ∧ existsb dm_done j = true).
Proof.
  unfold kick, _check_mod_permissions, _send_user_dm.
  destruct w as [rows cache c1 c2 c3 chs j0].
  destruct (guild i) as [g|]; [|exec_with idtac; by repeat split; try intros []].
  destruct (user i) as [uid|uid p];
    [exec_with idtac; by repeat split; try intros []|].
  destruct (administrator p || manage_guild p) eqn:Hp;
    exec_with ltac:(try read_kick);
    (split; [first [reflexivity | discriminate | done]|]);
    (split; [first [discriminate | done]|]);
    (split; [first [discriminate | done] | intros [? ?]; first [discriminate | done]]).
Qed.

(** X3. A direct message that cannot be delivered does not stop [kick] when
    the failure is a [discord.Forbidden] or another [discord.HTTPException]:
    the member is kicked, the action logged and the moderator told that no
    message was sent. Any other exception from the direct message ends the
    command before the member is kicked. Stated for a caller let through on
    [administrator] or [manage_guild], so that the direct message is the
    first call. *)
Theorem kick_survives_undelivered_dm
    (i : interaction) (g uid : Z) (p : permissions) (k : kick_context)
    (o : script) (w : world) (e : exn) :
  guild i = Some g → user i = Member uid p →
  administrator p || manage_guild p = true →
  me_kick_members k = true → member_top_role k < me_top_role k →
  raises o 0%nat = Some e → raises o 1%nat = None →
  raises o 2%nat = None → raises o 3%nat = None →
  journal (run (kick i k) o w).2
  = if is_http_exception e
    then [Called (user_send (member_id k)) (Some e);
          Called (member_kick (member_id k)) None;
          Called (log_moderation_action g (member_id k) uid) None;
          Called (response_send_message (MemberKicked false)) None]
    else [Called (user_send (member_id k)) (Some e);
          Called (response_send_message UnexpectedError) None].
Proof.
  intros Hg Hu Hp Hme Hrole H0 H1 H2 H3.
  unfold kick, _check_mod_permissions, _send_user_dm.
  rewrite Hg, Hu, Hp, Hme. apply Z.leb_gt in Hrole.
  destruct w as [rows cache c1 c2 c3 chs j0]. unfold_monad. simpl.
  rewrite Hrole. simpl. rewrite H0.
  destruct e; simpl; rewrite ?H1; simpl; rewrite ?H2; simpl; rewrite ?H3;
    reflexivity.
Qed.

(** ** More on the management channel *)

Lemma setup_whisper_channel_some (g c : Z) (o : script) (w : world) :
  (run (_setup_whisper_channel g) o w).1 = Returned (Some c) →
  (g, c) ∈ channels (run (_setup_whisper_channel g) o w).2
  ∧ cfg_whisper_channel (run (_setup_whisper_channel g) o w).2 !! g = Some c.
Proof.
  unfold _setup_whisper_channel.
  destruct w as [rows cache c1 c2 c3 chs j].
  exec_with ltac:(try read_world);
    intros Hc; try discriminate Hc; injection Hc as <-.
  - split; [apply bool_decide_eq_true in Heqb; exact Heqb|done].
  - split; [set_solver|by rewrite lookup_insert_eq].
  - split; [set_solver|by rewrite lookup_insert_eq].
Qed.

(** X4. [_setup_whisper_channel] never raises, under any script. When it
    returns a channel, that channel exists in the server and is the one the
    configuration holds from then on. *)
Theorem setup_whisper_channel_result (g : Z) (o : script) (w : world) :
  let w' := (run (_setup_whisper_channel g) o w).2 in
  (∃ r, (run (_setup_whisper_channel g) o w).1 = Returned r)
  ∧ ∀ c, (run (_setup_whisper_channel g) o w).1 = Returned (Some c) →
         (g, c) ∈ channels w' ∧ cfg_whisper_channel w' !! g = Some c.
Proof.
  intros w'. subst w'. split.
  - unfold _setup_whisper_channel.
    destruct w as [rows cache c1 c2 c3 chs j].
    exec_with ltac:(try read_world); eexists; reflexivity.
  - intros c Hc. by apply setup_whisper_channel_some.
Qed.

(** X5. Once [_setup_whisper_channel] has returned a channel, a later call
    whose two configuration reads go through returns the same channel and
    changes nothing: no second channel is created. *)
Theorem setup_whisper_channel_idempotent
    (g c : Z) (o o' : script) (w : world) :
  (run (_setup_whisper_channel g) o w).1 = Returned (Some c) →
  raises o' 0%nat = None → raises o' 1%nat = None →
  let w1 := (run (_setup_whisper_channel g) o w).2 in
  (run (_setup_whisper_channel g) o' w1).1 = Returned (Some c)
  ∧ durable (run (_setup_whisper_channel g) o' w1).2 = durable w1
  ∧ existsb creates (journal (run (_setup_whisper_channel g) o' w1).2) = false.
Proof.
  intros Hfirst H0 H1 w1.
  destruct (setup_whisper_channel_some g c o w Hfirst) as [Hin Hcfg].
  fold w1 in Hin, Hcfg. clearbody w1. clear Hfirst.
  unfold _setup_whisper_channel.
  destruct w1 as [rows cache c1 c2 c3 chs j]. simpl in Hin, Hcfg.
  unfold_monad. rewrite H0. simpl. rewrite H1. simpl.
  rewrite Hcfg. simpl. rewrite (bool_decide_eq_true_2 _ Hin). done.
Qed.

(** ** Commit points *)

(** X6. [create_whisper] commits at its INSERT, under every script: when
    the INSERT went through, exactly one open row for the caller and the
    created thread has been appended and the registry holds that thread,
    whatever fails afterwards; when it did not, store and registry are as
    they were, whatever was created on the platform before. *)
Theorem create_whisper_commit
    (i : interaction) (g : Z) (o : script) (w : world) :
  guild i = Some g →
  let u := caller_id (user i) in
  let w' := (run (create_whisper i) o w).2 in
  (existsb insert_done (journal w') = true →
     ∃ chan T now,
       Called (create_thread chan u T) None ∈ journal w'
       ∧ whispers w' = whispers w ++ [WhisperRow g u T now None true]
       ∧ lookup w' g u = Some T)
  ∧ (existsb insert_done (journal w') = false →
     whispers w' = whispers w ∧ _active_whispers w' = _active_whispers w).
Proof.
  intros Hg u w'. subst w'.
  unfold create_whisper, _setup_whisper_channel, _create_whisper_thread.
  rewrite Hg. fold u. clearbody u.
  destruct w as [rows cache c1 c2 c3 chs j].
  exec_with ltac:(try read_world);
    (split;
     [ first [ intros Hf; discriminate Hf
             | intros _; do 3 eexists;
               split; [repeat constructor|];
               split; [reflexivity|];
               rewrite lookup_entry; simpl; rewrite entry_remember;
               by rewrite decide_True ]
     | first [ intros Hf; discriminate Hf | intros _; split; reflexivity ] ]).
Qed.

(** X7. [close_whisper] commits at its UPDATE, under every script: when the
    UPDATE went through, every row of the thread is closed with the closure
    time and the entry of the owner found by the look-up is gone, even if
    archiving the thread or the confirmation fails afterwards; when it did
    not, store and registry are as they were. *)
Theorem close_whisper_commit
    (i : interaction) (g t : Z) (o : script) (w : world) :
  guild i = Some g → channel i = Thread t →
  let w' := (run (close_whisper i) o w).2 in
  (existsb update_done (journal w') = true →
     ∃ owner now,
       select_open_owner g t (whispers w) = Some owner
       ∧ whispers w' = update_closed g t now (whispers w)
       ∧ lookup w' g owner = None)
  ∧ (existsb update_done (journal w') = false →
     whispers w' = whispers w ∧ _active_whispers w' = _active_whispers w).
Proof.
  intros Hg Hc w'. subst w'. unfold close_whisper. rewrite Hg, Hc.
  destruct w as [rows cache c1 c2 c3 chs j].
  destruct (user i) as [uid|uid p];
    exec_with ltac:(try read_close);
    try congruence;
    (split;
     [ first [ intros Hf; discriminate Hf
             | intros _; simplify_eq; do 2 eexists;
               split; [reflexivity|];
               split; [reflexivity|];
               rewrite lookup_entry; simpl;
               first [ rewrite entry_forget; by rewrite decide_True
                     | unfold entry;
                       match goal with
                       | H : _ !! _ = None |- _ => by rewrite H
                       end ] ]
     | first [ intros Hf; discriminate Hf | intros _; split; reflexivity ] ]).
Qed.

(** ** What the handlers keep of the store *)

Lemma lookup_map_row (f : whisper_row → whisper_row) (rows : list whisper_row) (n : nat) :
  List.map f rows !! n = f <$> rows !! n.
Proof.
  revert n. induction rows as [|r rows IH]; intros [|n]; simpl; auto.
Qed.

Lemma lookup_update_closed (g t now : Z) (rows : list whisper_row) (n : nat) (r : whisper_row) :
  rows !! n = Some r →
  update_closed g t now rows !! n
  = Some (if same_thread g t r then close_row now r else r).
Proof.
  intros Hn. unfold update_closed. rewrite lookup_map_row, Hn. done.
Qed.

(** X8. No row is ever deleted or moved, under any script: after
    [create_whisper] every row is where it was, unchanged; after
    [close_whisper] the table has the same length and the row at each
    index still has its server, user, thread and creation time. *)
Theorem rows_are_never_deleted (i : interaction) (o : script) (w : world) :
  let opened := (run (create_whisper i) o w).2 in
  let closed := (run (close_whisper i) o w).2 in
  (∀ (n : nat) r, whispers w !! n = Some r → whispers opened !! n = Some r)
  ∧ length (whispers closed) = length (whispers w)
  ∧ (∀ (n : nat) r, whispers w !! n = Some r →
       ∃ r', whispers closed !! n = Some r' ∧ same_identity r r').
Proof.
  intros opened closed. split; [|split].
  - intros n r Hn. subst opened.
    destruct (create_whisper_outcomes i o w)
      as [[Hw _]|(g & k & now & _ & _ & Hw & _)]; rewrite Hw; [done|].
    unfold insert_whisper. by apply lookup_app_l_Some.
  - subst closed.
    destruct (close_whisper_outcomes i o w)
      as [[Hw _]|(g & t & owner & now & _ & _ & _ & Hw & _)]; rewrite Hw; [done|].
    unfold update_closed. apply length_map.
  - intros n r Hn. subst closed.
    destruct (close_whisper_outcomes i o w)
      as [[Hw _]|(g & t & owner & now & _ & _ & _ & Hw & _)]; rewrite Hw.
    + exists r. by repeat split.
    + rewrite (lookup_update_closed g t now _ n r Hn). eexists. split; [done|].
      destruct (same_thread g t r); by repeat split.
Qed.

(** X9. A command touches its own thread and its own user only, under any
    script: [create_whisper] leaves every other pair's registry entry as it
    was; [close_whisper] in thread [t] leaves every row of another thread
    as it was, and every registry entry but the one of the owner found by
    the look-up. *)
Theorem others_are_untouched
    (i : interaction) (g : Z) (o : script) (w : world) :
  guild i = Some g →
  let opened := (run (create_whisper i) o w).2 in
  let closed := (run (close_whisper i) o w).2 in
  (∀ g' u', (g', u') ≠ (g, caller_id (user i)) →
     lookup opened g' u' = lookup w g' u')
  ∧ (∀ t, channel i = Thread t →
     (∀ (n : nat) r, whispers w !! n = Some r → same_thread g t r = false →
        whispers closed !! n = Some r)
     ∧ (∀ g' u', (g' ≠ g ∨ select_open_owner g t (whispers w) ≠ Some u') →
        lookup closed g' u' = lookup w g' u')).
Proof.
  intros Hg opened closed. split.
  - intros g' u' Hne. subst opened. rewrite !lookup_entry.
    destruct (create_whisper_outcomes i o w)
      as [[_ Hc]|(g0 & k & now & Hg0 & _ & _ & Hc)]; rewrite Hc; [done|].
    rewrite entry_remember. rewrite decide_False; [done|].
    intros [-> ->]. apply Hne. congruence.
  - intros t Ht. subst closed.
    destruct (close_whisper_outcomes i o w)
      as [[Hw Hc]|(g0 & t0 & owner & now & Hg0 & Ht0 & Hsel & Hw & Hc)].
    + split.
      * intros n r Hn _. by rewrite Hw.
      * intros g' u' _. by rewrite !lookup_entry, Hc.
    + assert (g0 = g) by congruence. assert (t0 = t) by congruence. subst g0 t0.
      split.
      * intros n r Hn Hs. rewrite Hw, (lookup_update_closed g t now _ n r Hn).
        by rewrite Hs.
      * intros g' u' Hne. rewrite !lookup_entry, Hc, entry_forget.
        rewrite decide_False; [done|]. intros [-> ->].
        destruct Hne as [Hne|Hne]; [done|]. by apply Hne.
Qed.

(** X10. If [closed_at] is NULL exactly on the open rows, it still is
    after [create_whisper] and after [close_whisper], under any script. *)
Theorem closed_at_stays_matched (i : interaction) (o : script) (w : world) :
  closed_at_matches (whispers w) →
  closed_at_matches (whispers (run (create_whisper i) o w).2)
  ∧ closed_at_matches (whispers (run (close_whisper i) o w).2).
Proof.
  intros Hm. split.
  - destruct (create_whisper_outcomes i o w)
      as [[Hw _]|(g & k & now & _ & _ & Hw & _)]; rewrite Hw; [done|].
    intros r Hin. unfold insert_whisper in Hin.
    apply elem_of_app in Hin as [Hin|Hin]; [by apply Hm|].
    apply list_elem_of_singleton in Hin. by subst r.
  - destruct (close_whisper_outcomes i o w)
      as [[Hw _]|(g & t & owner & now & _ & _ & _ & Hw & _)]; rewrite Hw; [done|].
    intros r Hin. apply elem_of_update_closed in Hin as (r0 & Hin0 & ->).
    destruct (same_thread g t r0); [|by apply Hm].
    simpl. split; discriminate.
Qed.

(** ** More on the start-up load *)

Lemma cog_load_under (guilds : list Z) (o : script) (w : world) :
  ∃ j', cog_load guilds o w
        = (Returned tt,
           World (whispers w)
                 (loaded_under o (length (journal w)) guilds (whispers w)
                               (_active_whispers w))
                 (cfg_whisper_channel w) (cfg_whisper_enabled w)
                 (cfg_moderation_enabled w) (channels w) j').
Proof.
  revert w. induction guilds as [|g rest IH]; intros w.
  - exists (journal w). by destruct w.
  - destruct w as [rows cache c1 c2 c3 chs j].
    cbn [cog_load loaded_under whispers _active_whispers journal
         cfg_whisper_channel cfg_whisper_enabled cfg_moderation_enabled channels].
    unfold bind at 1.
    assert (Hstep :
      try_except
        (let* ws := db_fetchall_open g in
         match ws with
         | [] => ret tt
         | _ :: _ => modify (set_active_whispers (<[g := dict_of_rows ws]>))
         end)
        (λ _, ret tt) o (World rows cache c1 c2 c3 chs j)
      = (Returned tt,
         World rows
               match raises o (length j) with
               | Some _ => cache
               | None =>
                 match select_open_in_guild g rows with
                 | [] => cache
                 | ws => <[g := dict_of_rows ws]> cache
                 end
               end
               c1 c2 c3 chs (j ++ [Called (db_fetchall g) (raises o (length j))]))).
    { unfold try_except, db_fetchall_open, bind, await, get, ret, modify.
      simpl. destruct (raises o (length j)); simpl; [done|].
      by destruct (select_open_in_guild g rows). }
    rewrite Hstep.
    destruct (IH (World rows
               match raises o (length j) with
               | Some _ => cache
               | None =>
                 match select_open_in_guild g rows with
                 | [] => cache
                 | ws => <[g := dict_of_rows ws]> cache
                 end
               end
               c1 c2 c3 chs (j ++ [Called (db_fetchall g) (raises o (length j))])))
      as [j' Hj'].
    exists j'. rewrite Hj'. cbn. rewrite length_app. simpl.
    by rewrite Nat.add_1_r.
Qed.

(** A server some fetch of which went through is loaded when it has open
    rows; a later failing fetch does not undo it. *)
Lemma loaded_under_hit (o : script) (guilds : list Z) (rows : list whisper_row) (g : Z) :
  select_open_in_guild g rows ≠ [] →
  ∀ (k n : nat) cache,
    guilds !! n = Some g → raises o (k + n)%nat = None →
    loaded_under o k guilds rows cache !! g
    = Some (dict_of_rows (select_open_in_guild g rows)).
Proof.
  intros Hne.
  assert (Hkeep : ∀ gs (k : nat) cache,
            cache !! g = Some (dict_of_rows (select_open_in_guild g rows)) →
            loaded_under o k gs rows cache !! g
            = Some (dict_of_rows (select_open_in_guild g rows))).
  { induction gs as [|a gs IH]; intros k cache Hc; [done|]. simpl. apply IH.
    destruct (raises o k); [done|].
    destruct (select_open_in_guild a rows) as [|p ws] eqn:Hsel; [done|].
    destruct (decide (a = g)) as [->|Hag].
    - by rewrite lookup_insert_eq, Hsel.
    - by rewrite lookup_insert_ne. }
  induction guilds as [|a gs IH]; intros k n cache Hn Hk; [done|].
  destruct n as [|n]; simpl in Hn.
  - injection Hn as ->. rewrite Nat.add_0_r in Hk. simpl. rewrite Hk.
    apply Hkeep.
    destruct (select_open_in_guild g rows) as [|p ws] eqn:Hsel; [done|].
    by rewrite lookup_insert_eq.
  - simpl. apply (IH (S k) n); [done|].
    by replace (S k + n)%nat with (k + S n)%nat by lia.
Qed.

(** A server is left alone when it has no open row or each of its fetches
    raised. *)
Lemma loaded_under_miss (o : script) (guilds : list Z) (rows : list whisper_row) (g : Z) :
  ∀ (k : nat) cache,
    (select_open_in_guild g rows = []
     ∨ ∀ n : nat, guilds !! n = Some g → raises o (k + n)%nat ≠ None) →
    loaded_under o k guilds rows cache !! g = cache !! g.
Proof.
  induction guilds as [|a gs IH]; intros k cache Hmiss; [done|].
  simpl. rewrite IH.
  - destruct (raises o k) eqn:Hk; [done|].
    destruct (select_open_in_guild a rows) as [|p ws] eqn:Hsel; [done|].
    destruct (decide (a = g)) as [->|Hag]; [|by rewrite lookup_insert_ne].
    destruct Hmiss as [Hnil|Hall]; [congruence|].
    exfalso. apply (Hall 0%nat); [done|]. by rewrite Nat.add_0_r.
  - destruct Hmiss as [Hnil|Hall]; [by left|]. right. intros n Hn.
    replace (S k + n)%nat with (k + S n)%nat by lia. by apply Hall.
Qed.

(** X11. [cog_load] returns normally under every script, whichever fetches
    raise, and changes nothing but the registry. *)
Theorem cog_load_never_raises (guilds : list Z) (o : script) (w : world) :
  let w' := (run (cog_load guilds) o w).2 in
  (run (cog_load guilds) o w).1 = Returned tt
  ∧ whispers w' = whispers w
  ∧ cfg_whisper_channel w' = cfg_whisper_channel w
  ∧ cfg_whisper_enabled w' = cfg_whisper_enabled w
  ∧ cfg_moderation_enabled w' = cfg_moderation_enabled w
  ∧ channels w' = channels w.
Proof.
  intros w'. subst w'. unfold run.
  destruct (cog_load_under guilds o (set_journal (λ _, []) w)) as [j' ->].
  by destruct w.
Qed.

(** X12. A failing fetch costs [cog_load] that server only. Under every
    script, a connected server whose fetch goes through and which has open
    rows gets its users' last open threads, whatever happens to the fetches
    of the other servers; a server without open rows, or whose every fetch
    raised, keeps the entries it had. *)
Theorem cog_load_isolates_failures
    (guilds : list Z) (o : script) (w : world) (g u : Z) :
  let w' := (run (cog_load guilds) o w).2 in
  (∀ n : nat, guilds !! n = Some g → raises o n = None →
     select_open_in_guild g (whispers w) ≠ [] →
     lookup w' g u = last_open_thread g u (whispers w))
  ∧ ((select_open_in_guild g (whispers w) = []
      ∨ ∀ n : nat, guilds !! n = Some g → raises o n ≠ None) →
     lookup w' g u = lookup w g u).
Proof.
  intros w'. subst w'. unfold run.
  destruct (cog_load_under guilds o (set_journal (λ _, []) w)) as [j' ->].
  destruct w as [rows cache c1 c2 c3 chs j]. unfold lookup. simpl. split.
  - intros n Hn Hr Hne.
    rewrite (loaded_under_hit o guilds rows g Hne 0 n cache Hn Hr). simpl.
    apply dict_of_rows_select.
  - intros Hmiss. by rewrite (loaded_under_miss o guilds rows g 0 cache).
Qed.

(** X13. Loading twice is loading once: when every fetch goes through, a
    second [cog_load] over the same servers leaves the registry as the
    first one made it. *)
Theorem cog_load_idempotent (guilds : list Z) (o o' : script) (w : world) :
  calm o → calm o' →
  let w1 := (run (cog_load guilds) o w).2 in
  _active_whispers (run (cog_load guilds) o' w1).2 = _active_whispers w1.
Proof.
  intros Hcalm Hcalm' w1. subst w1. unfold run.
  destruct (cog_load_under guilds o (set_journal (λ _, []) w)) as [j1 ->].
  match goal with
  | |- context [cog_load guilds o' ?x] =>
      destruct (cog_load_under guilds o' x) as [j2 ->]
  end.
  destruct w as [rows cache c1 c2 c3 chs j]. simpl.
  apply map_eq. intros g.
  destruct (select_open_in_guild g rows) as [|p ws] eqn:Hsel.
  - rewrite (loaded_under_miss o' guilds rows g 0); [done|]. by left.
  - destruct (decide (g ∈ guilds)) as [Hin|Hout].
    + apply list_elem_of_lookup in Hin as [n Hn].
      rewrite (loaded_under_hit o' guilds rows g) with (n := n);
        [|by rewrite Hsel|done|apply Hcalm'].
      rewrite (loaded_under_hit o guilds rows g) with (n := n);
        [done|by rewrite Hsel|done|apply Hcalm].
    + rewrite (loaded_under_miss o' guilds rows g 0); [done|].
      right. intros n Hn. exfalso. apply Hout.
      apply list_elem_of_lookup. by exists n.
Qed.

(** ** A whole life cycle *)

Lemma create_whisper_calm (i : interaction) (g : Z) (o : script) (w : world) :
  guild i = Some g →
  default true (cfg_whisper_enabled w !! g) = true →
  existing_whisper (_active_whispers w) g (caller_id (user i)) = None →
  calm o →
  ∃ (k : nat) now,
    whispers (run (create_whisper i) o w).2
    = insert_whisper g (caller_id (user i)) (snowflake o k) now (whispers w)
    ∧ _active_whispers (run (create_whisper i) o w).2
      = remember_whisper g (caller_id (user i)) (snowflake o k) (_active_whispers w)
    ∧ cfg_whisper_enabled (run (create_whisper i) o w).2 = cfg_whisper_enabled w.
Proof.
  intros Hg Hen Hentry Hcalm.
  unfold create_whisper, _setup_whisper_channel, _create_whisper_thread.
  rewrite Hg. destruct w as [rows cache c1 c2 c3 chs j].
  cbn [cfg_whisper_enabled _active_whispers] in Hen, Hentry.
  unfold calm in Hcalm.
  exec_with ltac:(rewrite ?Hcalm, ?Hen, ?Hentry; try read_world);
    do 2 eexists; repeat split; reflexivity.
Qed.

Lemma close_whisper_calm
    (i : interaction) (g t owner uid : Z) (p : permissions) (o : script) (w : world) :
  guild i = Some g → channel i = Thread t →
  select_open_owner g t (whispers w) = Some owner →
  user i = Member uid p → administrator p = true ∨ uid = owner →
  calm o →
  whispers (run (close_whisper i) o w).2
  = update_closed g t (utcnow o 2%nat) (whispers w)
  ∧ _active_whispers (run (close_whisper i) o w).2
    = forget_whisper g owner (_active_whispers w)
  ∧ cfg_whisper_enabled (run (close_whisper i) o w).2 = cfg_whisper_enabled w.
Proof.
  intros Hg Hc Howner Hu Hauth Hcalm.
  assert (Hok : administrator p || (uid =? owner) = true).
  { destruct Hauth as [->| ->]; [done|]. rewrite Z.eqb_refl. by rewrite orb_true_r. }
  unfold close_whisper. rewrite Hg, Hc, Hu.
  destruct w as [rows cache c1 c2 c3 chs j]. cbn [whispers] in Howner.
  unfold calm in Hcalm. cbn [_active_whispers].
  destruct (cache !! g) as [aw|] eqn:Hkey;
    exec_with ltac:(rewrite ?Hcalm, ?Howner, ?Hok, ?Hkey);
    (split; [reflexivity|]); (split; [|reflexivity]);
    first [reflexivity | skipped_pop; reflexivity].
Qed.

Lemma select_open_owner_appended (g u t now : Z) (rows : list whisper_row) :
  (∀ r, r ∈ rows → thread_id r ≠ t) →
  select_open_owner g t (insert_whisper g u t now rows) = Some u.
Proof.
  intros Hfresh. unfold select_open_owner, insert_whisper.
  induction rows as [|r rows IH]; simpl.
  - unfold same_thread. simpl. by rewrite !Z.eqb_refl.
  - assert (same_thread g t r = false) as ->.
    { unfold same_thread. apply andb_false_iff. right.
      apply Z.eqb_neq. apply Hfresh. constructor. }
    simpl. apply IH. intros r' Hr'. apply Hfresh. by constructor.
Qed.

Lemma update_closed_appended (g u t now now' : Z) (rows : list whisper_row) :
  (∀ r, r ∈ rows → thread_id r ≠ t) →
  update_closed g t now' (insert_whisper g u t now rows)
  = rows ++ [WhisperRow g u t now (Some now') false].
Proof.
  intros Hfresh. unfold update_closed, insert_whisper.
  rewrite List.map_app. simpl. f_equal.
  - induction rows as [|r rows IH]; simpl; [done|].
    assert (same_thread g t r = false) as ->.
    { unfold same_thread. apply andb_false_iff. right.
      apply Z.eqb_neq. apply Hfresh. constructor. }
    f_equal. apply IH. intros r' Hr'. apply Hfresh. by constructor.
  - unfold same_thread. simpl. by rewrite !Z.eqb_refl.
Qed.

(** X14. A whole life cycle, every call going through: a member with no
    registry entry opens a thread, closes it from inside that thread, and
    opens again. The store ends with the two rows appended in order, the
    first closed with its closure time and the second open; the registry
    held the first thread after the first command, nothing after the
    second, and holds the second thread at the end. The threads of the
    store being other than the one the platform creates first. *)
Theorem open_close_open
    (i : interaction) (g uid : Z) (p : permissions) (o1 o2 o3 : script) (w : world) :
  guild i = Some g → user i = Member uid p →
  default true (cfg_whisper_enabled w !! g) = true →
  lookup w g uid = None →
  fresh_threads o1 (whispers w) →
  calm o1 → calm o2 → calm o3 →
  let w1 := (run (create_whisper i) o1 w).2 in
  ∃ T1 T2 at1 at2 at3,
    let w2 := (run (close_whisper (Interaction (Some g) (user i) (Thread T1))) o2 w1).2 in
    let w3 := (run (create_whisper i) o3 w2).2 in
    lookup w1 g uid = Some T1
    ∧ lookup w2 g uid = None
    ∧ lookup w3 g uid = Some T2
    ∧ whispers w3
      = whispers w ++ [WhisperRow g uid T1 at1 (Some at2) false;
                       WhisperRow g uid T2 at3 None true].
Proof.
  intros Hg Hu Hen Hnone Hfresh Hc1 Hc2 Hc3 w1.
  assert (Hid : caller_id (user i) = uid) by by rewrite Hu.
  rewrite lookup_entry, <- existing_whisper_entry, <- Hid in Hnone.
  destruct (create_whisper_calm i g o1 w Hg Hen Hnone Hc1)
    as (k1 & at1 & Hw1 & Hr1 & He1).
  fold w1 in Hw1, Hr1, He1. rewrite Hid in Hw1, Hr1.
  set (T1 := snowflake o1 k1) in *.
  assert (Hf1 : ∀ r, r ∈ whispers w → thread_id r ≠ T1).
  { intros r Hr. by apply Hfresh. }
  set (i2 := Interaction (Some g) (user i) (Thread T1)).
  assert (Hsel : select_open_owner g T1 (whispers w1) = Some uid).
  { rewrite Hw1. by apply select_open_owner_appended. }
  destruct (close_whisper_calm i2 g T1 uid uid p o2 w1 eq_refl eq_refl Hsel Hu
              (or_intror eq_refl) Hc2) as (Hw2 & Hr2 & He2).
  set (w2 := (run (close_whisper i2) o2 w1).2) in *.
  assert (Hnone2 : existing_whisper (_active_whispers w2) g (caller_id (user i)) = None).
  { rewrite existing_whisper_entry, Hid, Hr2, entry_forget. by rewrite decide_True. }
  assert (Hen2 : default true (cfg_whisper_enabled w2 !! g) = true)
    by by rewrite He2, He1.
  destruct (create_whisper_calm i g o3 w2 Hg Hen2 Hnone2 Hc3)
    as (k3 & at3 & Hw3 & Hr3 & _).
  rewrite Hid in Hw3, Hr3.
  exists T1, (snowflake o3 k3), at1, (utcnow o2 2%nat), at3. cbn zeta.
  fold i2. fold w2.
  split; [|split; [|split]].
  - rewrite lookup_entry, Hr1, entry_remember. by rewrite decide_True.
  - rewrite lookup_entry, Hr2, entry_forget. by rewrite decide_True.
  - rewrite lookup_entry, Hr3, entry_remember. by rewrite decide_True.
  - rewrite Hw3, Hw2, Hw1, update_closed_appended by done.
    unfold insert_whisper. by rewrite <- app_assoc.
Qed.

(** ** The logging cog *)

Ltac unfold_cog :=
  cbv beta iota zeta delta
    [Cog.run Cog.bind Cog.ret Cog.raise Cog.try_except Cog.get Cog.modify
     Cog.note Cog.await
     Logging.bot_get_channel Logging.db_get_guild_data
     Logging.db_update_guild_data Logging.db_ensure_connection
     Logging.set_log_channels Logging.set_guild_data
     Logging.log_channels Logging.guild_data Logging.live_channels
     Logging.permissions_for Logging.connected
     fst snd length app].

(** The same, for a journal that is not known: lengths stay folded. *)
Ltac unfold_cog_on_journal :=
  cbv beta iota zeta delta
    [Cog.run Cog.bind Cog.ret Cog.raise Cog.try_except Cog.get Cog.modify
     Cog.note Cog.await
     Logging.bot_get_channel Logging.db_get_guild_data
     Logging.db_update_guild_data Logging.db_ensure_connection
     Logging.set_log_channels Logging.set_guild_data
     Logging.log_channels Logging.guild_data Logging.live_channels
     Logging.permissions_for Logging.connected
     fst snd].

(** As [exec_with], for a cog over other collaborators. *)
Ltac exec_cog tac :=
  unfold_cog;
  repeat (progress (repeat (progress (simpl; try tac));
                    try match goal with
                        | |- context [match raises ?o ?k with Some _ => _ | None => _ end] =>
                            let E := fresh "Hcall" in destruct (raises o k) eqn:E
                        end)).

(** Case analysis on what the logging cog reads. *)
Ltac read_logging :=
  match goal with
  | |- context [match ?m !! ?g with Some _ => _ | None => _ end] =>
      destruct (m !! g) as [?|] eqn:?
  | |- context [Logging.logs_config_of ?d] =>
      destruct d as [[[[|]|] [?|]]|]; unfold Logging.logs_config_of,
        Logging.logging_enabled, Logging.configured_channel
  | |- context [bool_decide ?P] => destruct (bool_decide P) eqn:?
  | |- context [?c =? 0] => destruct (c =? 0) eqn:?
  end.

Lemma get_log_channel_post (g : Z) (o : script) (s : Logging.cog) :
  ∃ r j, Cog.run (Logging.get_log_channel g) o s
         = (Returned r,
            (match r with
             | Some c => Logging.set_log_channels (<[g := c]>) s
             | None => s
             end, j))
         ∧ (∀ c, r = Some c → c ∈ Logging.live_channels s)
         ∧ (j = [] ∨ j = [Logging.Did (Logging.get_guild_data g) (raises o 0%nat)]).
Proof.
  unfold Logging.get_log_channel. destruct s as [cache data live perms conn].
  exec_cog ltac:(try read_logging);
    match goal with
    | |- ∃ r j, (Returned ?x, (_, ?jj)) = _ ∧ _ => exists x, jj
    end;
    (split;
     [ first [ reflexivity
             | unfold Logging.set_log_channels; simpl;
               rewrite insert_id by done; reflexivity ]
     | split;
       [ intros c' Hc'; try discriminate Hc'; injection Hc' as <-;
         match goal with
         | H : bool_decide _ = true |- _ => apply bool_decide_eq_true in H; exact H
         end
       | first [ left; reflexivity
               | right; congruence ] ] ]).
Qed.

(** X15. [get_log_channel] never raises, under any script. The channel it
    returns is one the client knows, and the cache holds it for the server
    from then on; the stored data are not touched. *)
Theorem get_log_channel_result (g : Z) (o : script) (s : Logging.cog) :
  let r := (Cog.run (Logging.get_log_channel g) o s).1 in
  let s' := (Cog.run (Logging.get_log_channel g) o s).2.1 in
  (∃ answer, r = Returned answer)
  ∧ Logging.guild_data s' = Logging.guild_data s
  ∧ ∀ c, r = Returned (Some c) →
         c ∈ Logging.live_channels s ∧ Logging.log_channels s' !! g = Some c.
Proof.
  intros r s'. subst r s'.
  destruct (get_log_channel_post g o s) as (r & j & -> & Hlive & _). simpl.
  split; [by exists r|]. split; [by destruct r, s|].
  intros c [= ->]. split; [by apply Hlive|].
  destruct s. simpl. by rewrite lookup_insert_eq.
Qed.

Lemma get_log_channel_hit (g c : Z) (o : script) (s : Logging.cog) :
  Logging.log_channels s !! g = Some c → c ∈ Logging.live_channels s →
  Cog.run (Logging.get_log_channel g) o s = (Returned (Some c), (s, [])).
Proof.
  intros Hc Hlive. unfold Logging.get_log_channel.
  destruct s as [cache data live perms conn]. simpl in Hc, Hlive.
  unfold_cog. rewrite Hc. simpl. rewrite (bool_decide_eq_true_2 _ Hlive). done.
Qed.

(** X16. A cached channel the client still knows is served without any
    call, whatever the stored configuration says, logging disabled
    included; and once [get_log_channel] has returned a channel, the next
    look-up for that server is such a cache hit. *)
Theorem get_log_channel_cache_hit (g c : Z) (o o' : script) (s : Logging.cog) :
  (Logging.log_channels s !! g = Some c → c ∈ Logging.live_channels s →
   Cog.run (Logging.get_log_channel g) o s = (Returned (Some c), (s, [])))
  ∧ ((Cog.run (Logging.get_log_channel g) o s).1 = Returned (Some c) →
     let s' := (Cog.run (Logging.get_log_channel g) o s).2.1 in
     Cog.run (Logging.get_log_channel g) o' s' = (Returned (Some c), (s', []))).
Proof.
  split; [apply get_log_channel_hit|].
  destruct (get_log_channel_post g o s) as (r & j & -> & Hlive & _). simpl.
  intros [= ->]. apply get_log_channel_hit.
  - destruct s. simpl. by rewrite lookup_insert_eq.
  - destruct s. simpl. by apply Hlive.
Qed.

(** X17. Without a cached channel the client knows (none cached, or the
    cached one is gone), [get_log_channel] reads the store first; it
    answers nothing, and leaves the cache as it was, when that read raises,
    when the server has no data, when logging is disabled there, when no
    channel is configured, or when the client does not know the configured
    channel. *)
Theorem get_log_channel_miss (g : Z) (o : script) (s : Logging.cog) :
  (∀ c, Logging.log_channels s !! g = Some c → c ∉ Logging.live_channels s) →
  let r := Cog.run (Logging.get_log_channel g) o s in
  r.2.2 = [Logging.Did (Logging.get_guild_data g) (raises o 0%nat)]
  ∧ ((raises o 0%nat ≠ None
      ∨ Logging.guild_data s !! g = None
      ∨ (∃ d, Logging.guild_data s !! g = Some d
              ∧ (Logging.logging_enabled (Logging.logs_config_of d) = false
                 ∨ Logging.configured_channel (Logging.logs_config_of d) = None
                 ∨ ∃ c, Logging.configured_channel (Logging.logs_config_of d) = Some c
                        ∧ c ∉ Logging.live_channels s))) →
     r.1 = Returned None ∧ r.2.1 = s).
Proof.
  intros Hdead r. subst r. unfold Logging.get_log_channel.
  destruct s as [cache data live perms conn]. simpl in Hdead.
  assert (Hcached : match cache !! g with
                    | Some c => bool_decide (c ∈ live) = false
                    | None => True
                    end).
  { destruct (cache !! g) as [c|] eqn:Hc; [|done].
    apply bool_decide_eq_false. by apply Hdead. }
  unfold_cog. simpl.
  destruct (cache !! g) as [c0|]; simpl; rewrite ?Hcached; simpl;
    (destruct (raises o 0%nat) as [e|] eqn:H0; simpl;
     [ split; [done|]; intros _; done |]);
    (destruct (data !! g) as [d|] eqn:Hd; simpl;
     [| split; [done|]; intros _; done ]);
    (destruct (Logging.logging_enabled (Logging.logs_config_of d)) eqn:Hen; simpl;
     [| split; [done|]; intros _; done ]);
    (destruct (Logging.configured_channel (Logging.logs_config_of d)) as [c|] eqn:Hcfg;
     simpl; [| split; [done|]; intros _; done ]);
    (destruct (bool_decide (c ∈ live)) eqn:Hl; simpl;
     [| split; [done|]; intros _; done ]);
    (split; [done|]);
    apply bool_decide_eq_true in Hl;
    intros [Hx|[Hx|(d' & Hd' & [Hx|[Hx|(c' & Hc' & Hx)]])]];
    congruence.
Qed.

Lemma set_log_channel_outcomes (g c : Z) (o : script) (s : Logging.cog) :
  let r := Cog.run (Logging.set_log_channel g c) o s in
  (existsb Logging.store_written r.2.2 = true
   ∧ r.2.1 = Logging.set_log_channels (<[g := c]>)
               (Logging.set_guild_data
                  (<[g := Some (Logging.LogsConfig (Some true) (Some c))]>) s)
   ∧ Logging.permissions_for s c Logging.send_messages = true
   ∧ Logging.permissions_for s c Logging.embed_links = true)
  ∨ (existsb Logging.store_written r.2.2 = false ∧ r.2.1 = s).
Proof.
  intros r. subst r. unfold Logging.set_log_channel.
  destruct s as [cache data live perms conn].
  unfold_cog. simpl.
  destruct (perms c Logging.send_messages) eqn:Hs;
    destruct (perms c Logging.embed_links) eqn:He; simpl;
    exec_cog idtac;
    first [ right; split; reflexivity | left; repeat split; reflexivity ].
Qed.

(** X18. [set_log_channel] writes the store first, under every script: the
    cache takes the new channel exactly when the update of the store went
    through, and that is attempted only if the bot may send messages and
    embed links in the channel; otherwise cache and store are as they
    were. *)
Theorem set_log_channel_store_first (g c : Z) (o : script) (s : Logging.cog) :
  let r := Cog.run (Logging.set_log_channel g c) o s in
  (existsb Logging.store_written r.2.2 = true →
     Logging.log_channels r.2.1 = <[g := c]> (Logging.log_channels s)
     ∧ Logging.permissions_for s c Logging.send_messages = true
     ∧ Logging.permissions_for s c Logging.embed_links = true)
  ∧ (existsb Logging.store_written r.2.2 = false →
     Logging.log_channels r.2.1 = Logging.log_channels s
     ∧ Logging.guild_data r.2.1 = Logging.guild_data s).
Proof.
  intros r. subst r.
  destruct (set_log_channel_outcomes g c o s) as [(Hw & Hs & Hp1 & Hp2)|[Hw Hs]];
    rewrite Hw, Hs; split; try discriminate; intros _.
  - by destruct s.
  - done.
Qed.

(** X19. Setting, then getting: once [set_log_channel] got its update of
    the store through, [get_log_channel] answers with that channel from the
    cache, without a call, as long as the client knows the channel;
    whatever else failed in [set_log_channel]. *)
Theorem set_then_get_log_channel (g c : Z) (o o' : script) (s : Logging.cog) :
  existsb Logging.store_written (Cog.run (Logging.set_log_channel g c) o s).2.2 = true →
  c ∈ Logging.live_channels s →
  let s' := (Cog.run (Logging.set_log_channel g c) o s).2.1 in
  Cog.run (Logging.get_log_channel g) o' s' = (Returned (Some c), (s', [])).
Proof.
  intros Hw Hlive s'. subst s'.
  destruct (set_log_channel_outcomes g c o s) as [(_ & Hs & _)|[Hw' _]];
    [|congruence].
  rewrite Hs. apply get_log_channel_hit.
  - destruct s. simpl. by rewrite lookup_insert_eq.
  - by destruct s.
Qed.

Lemma holds_all_permissions (f : Logging.channel_permissions) :
  List.filter (λ perm, negb (f perm)) Logging.required_permissions = [] →
  ∀ p, f p = true.
Proof.
  intros Hnil p. destruct (f p) eqn:Hp; [done|].
  assert (Hin : In p (List.filter (λ perm, negb (f perm)) Logging.required_permissions)).
  { apply filter_In. split; [destruct p; simpl; tauto|by rewrite Hp]. }
  rewrite Hnil in Hin. destruct Hin.
Qed.

Lemma log_to_channel_post
    (guild : option Logging.guild) (t : Logging.title) (d : text)
    (o : script) (s : Logging.cog) :
  let r := Cog.run (Logging.log_to_channel guild t d) o s in
  r.1 = Returned tt
  ∧ Logging.guild_data r.2.1 = Logging.guild_data s
  ∧ ∀ c t' d' x,
      Logging.Did (Logging.channel_send c (Logging.LogEntry t' d')) x ∈ r.2.2 →
      t' = t ∧ d' = d ∧ c ∈ Logging.live_channels s
      ∧ ∀ p, Logging.permissions_for s c p = true.
Proof.
  intros r. subst r. unfold Logging.log_to_channel.
  destruct guild as [g|].
  2: { unfold_cog. simpl. split; [done|]. split; [done|].
       intros c t' d' x H. by apply elem_of_nil in H. }
  destruct (get_log_channel_post (Logging.gid g) o s)
    as (r & j & Hrun & Hlive & Hj).
  unfold Cog.run in Hrun. unfold_cog_on_journal. rewrite Hrun.
  destruct r as [c|].
  2: { simpl. split; [done|]. split; [done|]. intros c' t' d' x H.
       destruct Hj as [->| ->]; [by apply elem_of_nil in H|].
       apply list_elem_of_singleton in H. discriminate H. }
  destruct s as [cache data live perms conn].
  cbv beta iota zeta delta [fst snd Logging.set_log_channels
    Logging.log_channels Logging.guild_data Logging.live_channels
    Logging.permissions_for Logging.connected].
  destruct (List.filter (λ perm, negb (perms c perm)) Logging.required_permissions)
    as [|m ms] eqn:Hf.
  - destruct (raises o (length j)) eqn:Hr; simpl;
      (split; [done|]; split; [done|]);
      intros c' t' d' x H;
      (apply elem_of_app in H as [H|H];
       [ destruct Hj as [->| ->]; [by apply elem_of_nil in H|];
         apply list_elem_of_singleton in H; discriminate H
       | apply list_elem_of_singleton in H; injection H as -> -> -> _;
         repeat split; [by apply Hlive|by apply holds_all_permissions] ]).
  - destruct (match Logging.system_channel g with
              | Some n => Some n
              | None => Logging.first_sendable perms (Logging.text_channels g)
              end) as [n|];
      [destruct (raises o (length j)) eqn:Hr|]; simpl;
      (split; [done|]; split; [done|]);
      intros c' t' d' x H;
      try (apply elem_of_app in H as [H|H];
           [|apply list_elem_of_singleton in H; discriminate H]);
      (destruct Hj as [->| ->]; [by apply elem_of_nil in H|];
       apply list_elem_of_singleton in H; discriminate H).
Qed.

Lemma log_to_channel_once
    (guild : option Logging.guild) (t : Logging.title) (d : text)
    (o : script) (s : Logging.cog) :
  (length (List.filter Logging.log_entry_sent
             (Cog.run (Logging.log_to_channel guild t d) o s).2.2) ≤ 1)%nat.
Proof.
  unfold Logging.log_to_channel.
  destruct guild as [g|]; [|unfold_cog; simpl; lia].
  destruct (get_log_channel_post (Logging.gid g) o s)
    as (r & j & Hrun & _ & Hj).
  unfold Cog.run in Hrun. unfold_cog_on_journal. rewrite Hrun.
  destruct r as [c|]; [|simpl; destruct Hj as [->| ->]; simpl; lia].
  destruct s as [cache data live perms conn].
  cbv beta iota zeta delta [fst snd Logging.set_log_channels
    Logging.log_channels Logging.guild_data Logging.live_channels
    Logging.permissions_for Logging.connected].
  destruct (List.filter (λ perm, negb (perms c perm)) Logging.required_permissions)
    as [|m ms] eqn:Hf.
  - destruct (raises o (length j)) eqn:Hr; simpl;
      rewrite List.filter_app, length_app;
      destruct Hj as [->| ->]; simpl; lia.
  - destruct (match Logging.system_channel g with
              | Some n => Some n
              | None => Logging.first_sendable perms (Logging.text_channels g)
              end) as [n|];
      [destruct (raises o (length j)) eqn:Hr|]; simpl;
      rewrite ?List.filter_app, ?length_app;
      destruct Hj as [->| ->]; simpl; lia.
Qed.

(** X20. [log_to_channel] never raises, under any script, with or without
    a server, and never touches the stored data. The entry is posted at
    most once, with the title and description given, and only into a
    channel the client knows and in which the bot holds all five required
    permissions. *)
Theorem log_to_channel_safe
    (guild : option Logging.guild) (t : Logging.title) (d : text)
    (o : script) (s : Logging.cog) :
  let r := Cog.run (Logging.log_to_channel guild t d) o s in
  r.1 = Returned tt
  ∧ Logging.guild_data r.2.1 = Logging.guild_data s
  ∧ (length (List.filter Logging.log_entry_sent r.2.2) ≤ 1)%nat
  ∧ ∀ c t' d' x,
      Logging.Did (Logging.channel_send c (Logging.LogEntry t' d')) x ∈ r.2.2 →
      t' = t ∧ d' = d ∧ c ∈ Logging.live_channels s
      ∧ ∀ p, Logging.permissions_for s c p = true.
Proof.
  intros r. subst r.
  destruct (log_to_channel_post guild t d o s) as (Hret & Hdata & Hsent).
  split; [exact Hret|]. split; [exact Hdata|].
  split; [apply log_to_channel_once|exact Hsent].
Qed.

(** X21. When the bot lacks one of the required permissions in the log
    channel, [log_to_channel] posts no entry. It tells the server's system
    channel, or else the first text channel in which it may send messages,
    which permissions are missing, in the order of the required list, and
    tells nobody when there is no such channel; it returns normally even
    if that notice cannot be sent. Stated for a log channel served from the
    cache. *)
Theorem log_to_channel_reports_missing_permissions
    (g : Logging.guild) (t : Logging.title) (d : text) (c : Z)
    (o : script) (s : Logging.cog) :
  Logging.log_channels s !! Logging.gid g = Some c →
  c ∈ Logging.live_channels s →
  let missing :=
    List.filter (λ perm, negb (Logging.permissions_for s c perm))
                Logging.required_permissions in
  missing ≠ [] →
  Cog.run (Logging.log_to_channel (Some g) t d) o s
  = (Returned tt,
     (s, match Logging.system_channel g with
         | Some n => [Logging.Did (Logging.channel_send n
                                     (Logging.PermissionError c missing))
                                  (raises o 0%nat)]
         | None =>
           match Logging.first_sendable (Logging.permissions_for s)
                                        (Logging.text_channels g) with
           | Some n => [Logging.Did (Logging.channel_send n
                                       (Logging.PermissionError c missing))
                                    (raises o 0%nat)]
           | None => []
           end
         end)).
Proof.
  intros Hc Hlive missing Hmissing. subst missing.
  unfold Logging.log_to_channel.
  pose proof (get_log_channel_hit (Logging.gid g) c o s Hc Hlive) as Hrun.
  unfold Cog.run in Hrun. unfold_cog. rewrite Hrun.
  destruct s as [cache data live perms conn].
  cbv beta iota zeta delta [fst snd Logging.permissions_for] in *.
  destruct (List.filter (λ perm, negb (perms c perm)) Logging.required_permissions)
    as [|m ms] eqn:Hf; [done|].
  destruct (Logging.system_channel g) as [n|].
  - simpl. by destruct (raises o 0%nat).
  - destruct (Logging.first_sendable perms (Logging.text_channels g)) as [n|];
      [|done].
    simpl. by destruct (raises o 0%nat).
Qed.

(** ** Loading the log channels *)

Lemma grown_from_refl (s : Logging.cog) : Logging.grown_from s s.
Proof. repeat split; auto. Qed.

Lemma grown_from_trans (s1 s2 s3 : Logging.cog) :
  Logging.grown_from s1 s2 → Logging.grown_from s2 s3 → Logging.grown_from s1 s3.
Proof.
  intros (Hd & Hl & Hc & He) (Hd' & Hl' & Hc' & He').
  repeat split; try congruence.
  intros g c Hg. destruct (He' g c Hg) as [H|H].
  - by apply He.
  - right. by rewrite <- Hl.
Qed.

Lemma load_guild_post (g : Z) (o : script) (s : Logging.cog) (j : list Logging.event) :
  ∃ r s' jx,
    Logging.load_guild g o (s, j) = (Returned r, (s', j ++ jx))
    ∧ Logging.grown_from s s'
    ∧ existsb Logging.printed jx = false
    ∧ (length jx ≤ 1)%nat.
Proof.
  unfold Logging.load_guild. destruct s as [cache data live perms conn].
  unfold_cog_on_journal.
  destruct (raises o (length j)) as [e|] eqn:Hr; simpl.
  { do 3 eexists. split; [reflexivity|]. split; [apply grown_from_refl|]. done. }
  destruct (data !! g) as [d|] eqn:Hd; simpl.
  2: { do 3 eexists. split; [reflexivity|]. split; [apply grown_from_refl|]. done. }
  destruct (if Logging.logging_enabled (Logging.logs_config_of d)
            then Logging.configured_channel (Logging.logs_config_of d)
            else None) as [c|] eqn:Hc; simpl.
  2: { do 3 eexists. split; [reflexivity|]. split; [apply grown_from_refl|]. done. }
  destruct (bool_decide (c ∈ live)) eqn:Hl; simpl.
  2: { do 3 eexists. split; [reflexivity|]. split; [apply grown_from_refl|]. done. }
  do 3 eexists. split; [reflexivity|]. split; [|done].
  apply bool_decide_eq_true in Hl.
  repeat split; try done. simpl. intros g' c' Hg'.
  destruct (decide (g = g')) as [->|Hne].
  - rewrite lookup_insert_eq in Hg'. injection Hg' as <-. by right.
  - rewrite lookup_insert_ne in Hg' by done. by left.
Qed.

Lemma load_guilds_post (guilds : list Z) (o : script) :
  ∀ (loaded failed : nat) (s : Logging.cog) (j : list Logging.event),
  ∃ l' f' s' jx,
    Logging.load_guilds guilds loaded failed o (s, j)
    = (Returned (l', f'), (s', j ++ jx))
    ∧ Logging.grown_from s s'
    ∧ existsb Logging.printed jx = false
    ∧ (l' + f' ≤ loaded + failed + length guilds)%nat.
Proof.
  induction guilds as [|g rest IH]; intros loaded failed s j.
  - exists loaded, failed, s, []. rewrite app_nil_r.
    split; [done|]. split; [apply grown_from_refl|]. split; [done|]. simpl. lia.
  - destruct (load_guild_post g o s j) as (r & s1 & jx & Hrun & Hgrow & Hp & _).
    cbn [Logging.load_guilds]. unfold Cog.bind at 1. rewrite Hrun.
    destruct r;
      [ destruct (IH loaded failed s1 (j ++ jx)) as (l' & f' & s' & jy & Hrest & Hgrow' & Hp' & Hle)
      | destruct (IH (S loaded) failed s1 (j ++ jx)) as (l' & f' & s' & jy & Hrest & Hgrow' & Hp' & Hle)
      | destruct (IH loaded (S failed) s1 (j ++ jx)) as (l' & f' & s' & jy & Hrest & Hgrow' & Hp' & Hle) ];
      exists l', f', s', (jx ++ jy); rewrite Hrest, <- app_assoc;
      (split; [done|]); (split; [by eapply grown_from_trans|]);
      (split; [rewrite existsb_app, Hp, Hp'; done|]); simpl; lia.
Qed.

Lemma filter_none {A} (f : A → bool) (l : list A) :
  existsb f l = false → List.filter f l = [].
Proof.
  induction l as [|a l IH]; [done|]. simpl. intros Hex.
  apply orb_false_iff in Hex as [-> Hl]. by apply IH.
Qed.

(** X22. [load_log_channels] never raises, under any script. It leaves the
    stored data alone, every cache entry it adds is a channel the client
    knows, it prints its summary at most once, as the last thing it does,
    and the loaded and failed counts it prints never add up to more than
    the number of servers. *)
Theorem load_log_channels_result (guilds : list Z) (o : script) (s : Logging.cog) :
  let r := Cog.run (Logging.load_log_channels guilds) o s in
  r.1 = Returned tt
  ∧ Logging.grown_from s r.2.1
  ∧ (length (List.filter Logging.printed r.2.2) ≤ 1)%nat
  ∧ ∀ ev, ev ∈ r.2.2 → Logging.printed ev = true →
      ∃ l f, ev = Logging.Printed l f ∧ (l + f ≤ length guilds)%nat
             ∧ last r.2.2 = Some ev.
Proof.
  intros r. subst r. unfold Logging.load_log_channels.
  destruct s as [cache data live perms conn].
  unfold_cog_on_journal. simpl.
  destruct (raises o 0%nat) as [e0|] eqn:H0; simpl.
  { split; [done|]. split; [apply grown_from_refl|]. split; [lia|].
    intros ev Hev Hp. apply list_elem_of_singleton in Hev. by subst ev. }
  destruct (raises o 1%nat) as [e1|] eqn:H1; simpl.
  { split; [done|]. split; [apply grown_from_refl|]. split; [lia|].
    intros ev Hev Hp.
    repeat (apply elem_of_cons in Hev as [->|Hev]; [discriminate Hp|]).
    by apply elem_of_nil in Hev. }
  destruct conn; simpl.
  2: { split; [done|]. split; [apply grown_from_refl|]. split; [lia|].
       intros ev Hev Hp.
       repeat (apply elem_of_cons in Hev as [->|Hev]; [discriminate Hp|]).
       by apply elem_of_nil in Hev. }
  match goal with
  | |- context [Logging.load_guilds guilds 0 0 o (?s0, ?j0)] =>
      destruct (load_guilds_post guilds o 0 0 s0 j0)
        as (l' & f' & s' & jx & Hrun & Hgrow & Hp & Hle)
  end.
  rewrite Hrun. simpl.
  split; [done|]. split; [done|].
  split.
  { rewrite List.filter_app, length_app, (filter_none _ jx Hp). simpl. lia. }
  intros ev Hev Hpr.
  assert (Hnot : ∀ ev', ev' ∈ jx → Logging.printed ev' = false).
  { intros ev' Hin. apply list_elem_of_In in Hin.
    destruct (Logging.printed ev') eqn:Hp'; [|done].
    assert (existsb Logging.printed jx = true) as Hex.
    { apply existsb_exists. by exists ev'. }
    congruence. }
  repeat (apply elem_of_cons in Hev as [->|Hev]; [discriminate Hpr|]).
  apply elem_of_app in Hev as [Hev|Hev].
  - rewrite (Hnot ev Hev) in Hpr. discriminate.
  - apply list_elem_of_singleton in Hev. subst ev.
    exists l', f'. split; [done|]. split; [simpl in Hle; lia|].
    rewrite !app_comm_cons. by rewrite last_snoc.
Qed.

Lemma load_guild_calm (g : Z) (o : script) (s : Logging.cog) (j : list Logging.event) :
  raises o (length j) = None →
  Logging.load_guild g o (s, j)
  = (Returned (match Logging.wanted s g with
               | Some _ => Logging.Loaded
               | None =>
                 match Logging.guild_data s !! g with
                 | Some d =>
                   if Logging.logging_enabled (Logging.logs_config_of d)
                   then match Logging.configured_channel (Logging.logs_config_of d) with
                        | Some _ => Logging.Failed
                        | None => Logging.Skipped
                        end
                   else Logging.Skipped
                 | None => Logging.Skipped
                 end
               end),
     (match Logging.wanted s g with
      | Some c => Logging.set_log_channels (<[g := c]>) s
      | None => s
      end, j ++ [Logging.Did (Logging.get_guild_data g) None])).
Proof.
  intros Hr. unfold Logging.load_guild, Logging.wanted.
  destruct s as [cache data live perms conn].
  unfold_cog_on_journal. rewrite Hr. simpl.
  destruct (data !! g) as [d|]; simpl; [|done].
  destruct (Logging.logging_enabled (Logging.logs_config_of d)); simpl; [|done].
  destruct (Logging.configured_channel (Logging.logs_config_of d)) as [c|]; simpl;
    [|done].
  by destruct (bool_decide (c ∈ live)).
Qed.

Lemma wanted_set_log_channels (f : gmap Z Z → gmap Z Z) (s : Logging.cog) (g : Z) :
  Logging.wanted (Logging.set_log_channels f s) g = Logging.wanted s g.
Proof. by destruct s. Qed.

Lemma load_guilds_calm (guilds : list Z) (o : script) :
  calm o →
  ∀ (loaded failed : nat) (s : Logging.cog) (j : list Logging.event),
  ∃ f' s' j',
    Logging.load_guilds guilds loaded failed o (s, j)
    = (Returned ((loaded + length (List.filter
                                     (λ g, bool_decide (is_Some (Logging.wanted s g)))
                                     guilds))%nat, f'), (s', j'))
    ∧ (∀ g, Logging.wanted s' g = Logging.wanted s g)
    ∧ ∀ g, Logging.log_channels s' !! g
           = if decide (g ∈ guilds)
             then match Logging.wanted s g with
                  | Some c => Some c
                  | None => Logging.log_channels s !! g
                  end
             else Logging.log_channels s !! g.
Proof.
  intros Hcalm. induction guilds as [|a rest IH]; intros loaded failed s j.
  - exists failed, s, j. cbn [Logging.load_guilds List.filter length].
    rewrite Nat.add_0_r. split; [done|]. split; [done|].
    intros g. rewrite decide_False; [done|]. by intros ?%elem_of_nil.
  - cbn [Logging.load_guilds]. unfold Cog.bind at 1.
    rewrite (load_guild_calm a o s j (Hcalm _)).
    set (s1 := match Logging.wanted s a with
               | Some c => Logging.set_log_channels (<[a := c]>) s
               | None => s
               end).
    assert (Hw1 : ∀ g, Logging.wanted s1 g = Logging.wanted s g).
    { intros g. subst s1. destruct (Logging.wanted s a); [|done].
      apply wanted_set_log_channels. }
    assert (Hc1 : ∀ g, Logging.log_channels s1 !! g
                       = if decide (g = a)
                         then match Logging.wanted s a with
                              | Some c => Some c
                              | None => Logging.log_channels s !! g
                              end
                         else Logging.log_channels s !! g).
    { intros g. subst s1. destruct (Logging.wanted s a) as [c|] eqn:Hw.
      - destruct s. simpl. case_decide as Hd.
        + subst. by rewrite lookup_insert_eq.
        + by rewrite lookup_insert_ne.
      - by case_decide. }
    clearbody s1.
    assert (Hfilter : ∀ n : nat,
              (n + length (List.filter (λ g, bool_decide (is_Some (Logging.wanted s g)))
                                       (a :: rest)))%nat
              = ((n + if bool_decide (is_Some (Logging.wanted s a)) then 1 else 0)
                 + length (List.filter (λ g, bool_decide (is_Some (Logging.wanted s1 g)))
                                       rest))%nat).
    { intros n. simpl.
      replace (List.filter (λ g, bool_decide (is_Some (Logging.wanted s1 g))) rest)
        with (List.filter (λ g, bool_decide (is_Some (Logging.wanted s g))) rest).
      2: { apply filter_ext. intros g. by rewrite Hw1. }
      destruct (bool_decide (is_Some (Logging.wanted s a))); simpl; lia. }
    assert (Hfinish : ∀ l1 f1,
              (l1 = loaded + if bool_decide (is_Some (Logging.wanted s a)) then 1 else 0)%nat →
              ∃ f' s' j',
                Logging.load_guilds rest l1 f1 o
                  (s1, j ++ [Logging.Did (Logging.get_guild_data a) None])
                = (Returned ((loaded + length (List.filter
                     (λ g, bool_decide (is_Some (Logging.wanted s g))) (a :: rest)))%nat,
                             f'), (s', j'))
                ∧ (∀ g, Logging.wanted s' g = Logging.wanted s g)
                ∧ ∀ g, Logging.log_channels s' !! g
                       = if decide (g ∈ a :: rest)
                         then match Logging.wanted s g with
                              | Some c => Some c
                              | None => Logging.log_channels s !! g
                              end
                         else Logging.log_channels s !! g).
    { intros l1 f1 ->.
      destruct (IH (loaded + if bool_decide (is_Some (Logging.wanted s a)) then 1 else 0)%nat
                   f1 s1 (j ++ [Logging.Did (Logging.get_guild_data a) None]))
        as (f' & s' & j' & Hrun & Hw' & Hc').
      exists f', s', j'. rewrite Hrun, Hfilter. split; [done|].
      split; [intros g; by rewrite Hw', Hw1|].
      intros g. rewrite Hc', Hw1, Hc1.
      destruct (decide (g = a)) as [->|Hga].
      - rewrite (decide_True (P := a ∈ a :: rest)) by constructor.
        destruct (Logging.wanted s a); by case_decide.
      - destruct (decide (g ∈ rest)) as [Hin|Hout].
        + by rewrite (decide_True (P := g ∈ a :: rest)) by by constructor.
        + rewrite (decide_False (P := g ∈ a :: rest)); [done|].
          intros [?|?]%elem_of_cons; done. }
    destruct (Logging.wanted s a) as [c|] eqn:Hwa; simpl.
    + apply Hfinish. rewrite bool_decide_eq_true_2 by by eexists. lia.
    + destruct (Logging.guild_data s !! a) as [d|];
        [destruct (Logging.logging_enabled (Logging.logs_config_of d));
         [destruct (Logging.configured_channel (Logging.logs_config_of d))|]|];
        apply Hfinish;
        rewrite bool_decide_eq_false_2 by (by intros [? ?]); lia.
Qed.

(** X23. With the store reachable and every call going through,
    [load_log_channels] caches, for each server of the list, the channel
    its stored configuration asks for: logging enabled there, a channel
    configured, and that channel known to the client. A server asking for
    none, or outside the list, keeps the entry it had; and the number
    printed as loaded is the number of servers of the list it cached. *)
Theorem load_log_channels_loads (guilds : list Z) (o : script) (s : Logging.cog) :
  calm o → Logging.connected s = true →
  let r := Cog.run (Logging.load_log_channels guilds) o s in
  (∀ g, Logging.log_channels r.2.1 !! g
        = if decide (g ∈ guilds)
          then match Logging.wanted s g with
               | Some c => Some c
               | None => Logging.log_channels s !! g
               end
          else Logging.log_channels s !! g)
  ∧ ∃ failed,
      last r.2.2
      = Some (Logging.Printed
                (length (List.filter (λ g, bool_decide (is_Some (Logging.wanted s g)))
                                     guilds))
                failed).
Proof.
  intros Hcalm Hconn r. subst r. unfold Logging.load_log_channels.
  destruct s as [cache data live perms conn]. simpl in Hconn. subst conn.
  unfold_cog_on_journal. simpl. rewrite !Hcalm. simpl.
  match goal with
  | |- context [Logging.load_guilds guilds 0 0 o (?s0, ?j0)] =>
      destruct (load_guilds_calm guilds o Hcalm 0 0 s0 j0)
        as (f' & s' & j' & Hrun & _ & Hc)
  end.
  rewrite Hrun. simpl. split; [exact Hc|].
  exists f'. by rewrite last_snoc.
Qed.

(** ** What the listeners post *)

Lemma length_clip_content (s : text) : (length (Logging.clip_content s) ≤ 1003)%nat.
Proof.
  unfold Logging.clip_content.
  destruct (Nat.ltb_spec 1000 (length s)) as [Hlong|Hshort]; [|lia].
  rewrite length_app, length_take.
  change (length (lit "...")) with 3%nat. lia.
Qed.

Lemma length_clip_attachments (urls : list text) :
  (length (Logging.clip_attachments urls) ≤ 1000)%nat.
Proof.
  unfold Logging.clip_attachments.
  destruct (Nat.ltb_spec 1000 (length (join nl urls))) as [Hlong|Hshort]; [|lia].
  rewrite length_app, length_take.
  change (length (lit "...")) with 3%nat. lia.
Qed.

(** X24. What the message listeners cut. A content of at most 1000
    characters is kept whole and a longer one becomes its first 1000
    characters and an ellipsis, 1003 characters; the attachment list never
    exceeds 1000 characters. So the description of a deleted message is at
    most 2047 characters beyond the two mentions, and that of an edited
    message at most 2063 beyond the two mentions and the link, whatever the
    mention of the channel is. *)
Theorem message_descriptions_are_bounded
    (m before after : Logging.message) (mention : text) :
  (∀ s : text,
     ((length s ≤ 1000)%nat → Logging.clip_content s = s)
     ∧ ((1000 < length s)%nat →
        Logging.clip_content s = take 1000 s ++ lit "..."
        ∧ length (Logging.clip_content s) = 1003%nat))
  ∧ (length (Logging.clip_attachments (Logging.attachments m)) ≤ 1000)%nat
  ∧ (length (Logging.deleted_description m mention)
     ≤ length (Logging.author_mention m) + length mention + 2047)%nat
  ∧ (length (Logging.edited_description before after mention)
     ≤ length (Logging.author_mention before) + length mention
       + length (Logging.jump_url after) + 2063)%nat.
Proof.
  split; [|split; [|split]].
  - intros s. unfold Logging.clip_content. split.
    + intros Hshort. by destruct (Nat.ltb_spec 1000 (length s)); [lia|].
    + intros Hlong. destruct (Nat.ltb_spec 1000 (length s)); [|lia].
      split; [done|]. rewrite length_app, length_take.
      change (length (lit "...")) with 3%nat. lia.
  - apply length_clip_attachments.
  - unfold Logging.deleted_description.
    destruct (Logging.content m) as [|x xs];
      destruct (Logging.attachments m) as [|u us];
      try pose proof (length_clip_content (x :: xs)) as Hc;
      try pose proof (length_clip_attachments (u :: us)) as Ha;
      rewrite ?length_app;
      change (length (lit "Author: ")) with 8%nat;
      change (length (lit "Channel: ")) with 9%nat;
      change (length (lit "Content:")) with 8%nat;
      change (length (lit "Attachments:")) with 12%nat;
      change (length nl) with 1%nat;
      change (length (@nil Z)) with 0%nat; lia.
  - unfold Logging.edited_description.
    pose proof (length_clip_content (Logging.content before)) as Hb.
    pose proof (length_clip_content (Logging.content after)) as Ha.
    rewrite ?length_app;
      change (length (lit "Author: ")) with 8%nat;
      change (length (lit "Channel: ")) with 9%nat;
      change (length (lit "[Jump to Message](")) with 18%nat;
      change (length (lit ")")) with 1%nat;
      change (length (lit "Before:")) with 7%nat;
      change (length (lit "After:")) with 6%nat;
      change (length nl) with 1%nat; lia.
Qed.

Lemma on_message_delete_run (m : Logging.message) (o : script) (s : Logging.cog) :
  Cog.run (Logging.on_message_delete m) o s
  = if Logging.author_bot m then (Returned tt, (s, []))
    else match Logging.channel_mention m with
         | Some mention =>
           Cog.run (Logging.log_to_channel (Logging.message_guild m)
                      Logging.MessageDeleted
                      (Logging.deleted_description m mention)) o s
         | None => (Raised OtherError, (s, []))
         end.
Proof.
  unfold Logging.on_message_delete, Logging.mention_of.
  destruct (Logging.author_bot m); [reflexivity|].
  destruct (Logging.channel_mention m); reflexivity.
Qed.

Lemma on_message_edit_run (before after : Logging.message) (o : script) (s : Logging.cog) :
  Cog.run (Logging.on_message_edit before after) o s
  = if Logging.author_bot before
       || bool_decide (Logging.content before = Logging.content after)
    then (Returned tt, (s, []))
    else match Logging.channel_mention before with
         | Some mention =>
           Cog.run (Logging.log_to_channel (Logging.message_guild after)
                      Logging.MessageEdited
                      (Logging.edited_description before after mention)) o s
         | None => (Raised OtherError, (s, []))
         end.
Proof.
  unfold Logging.on_message_edit, Logging.mention_of.
  destruct (Logging.author_bot before
            || bool_decide (Logging.content before = Logging.content after));
    [reflexivity|].
  destruct (Logging.channel_mention before); reflexivity.
Qed.

(** X25. The listeners for deleted and edited messages and for updated
    channels, under any script. A deleted message whose author is a bot, an
    edited one whose author is a bot or whose content did not change, and
    an updated channel whose name did not change are not logged, and the
    listener returns. For a message that is to be logged the listener reads
    the mention of the channel first, outside any [try]: in a channel
    without one, a private channel, it raises and nothing has been called;
    with one it returns normally. What is posted is the entry of that
    event, for a message with the description built from it and that
    mention, into a channel the client knows where the bot holds the five
    required permissions. *)
Theorem listeners_post_what_changed
    (m before after : Logging.message) (g : Logging.guild) (old new : text)
    (o : script) (s : Logging.cog) :
  let deleted := Cog.run (Logging.on_message_delete m) o s in
  let edited := Cog.run (Logging.on_message_edit before after) o s in
  let renamed := Cog.run (Logging.on_guild_channel_update g old new) o s in
  (Logging.author_bot m = true → deleted = (Returned tt, (s, [])))
  ∧ (Logging.author_bot m = false →
     match Logging.channel_mention m with
     | Some _ => deleted.1 = Returned tt
     | None => deleted = (Raised OtherError, (s, []))
     end)
  ∧ (Logging.author_bot before = true
     ∨ Logging.content before = Logging.content after →
     edited = (Returned tt, (s, [])))
  ∧ (Logging.author_bot before = false →
     Logging.content before ≠ Logging.content after →
     match Logging.channel_mention before with
     | Some _ => edited.1 = Returned tt
     | None => edited = (Raised OtherError, (s, []))
     end)
  ∧ renamed.1 = Returned tt
  ∧ (∀ c t d x,
       Logging.Did (Logging.channel_send c (Logging.LogEntry t d)) x ∈ deleted.2.2 →
       Logging.author_bot m = false
       ∧ t = Logging.MessageDeleted
       ∧ (∃ mention, Logging.channel_mention m = Some mention
                     ∧ d = Logging.deleted_description m mention)
       ∧ c ∈ Logging.live_channels s
       ∧ ∀ p, Logging.permissions_for s c p = true)
  ∧ (∀ c t d x,
       Logging.Did (Logging.channel_send c (Logging.LogEntry t d)) x ∈ edited.2.2 →
       Logging.author_bot before = false
       ∧ Logging.content before ≠ Logging.content after
       ∧ t = Logging.MessageEdited
       ∧ (∃ mention, Logging.channel_mention before = Some mention
                     ∧ d = Logging.edited_description before after mention)
       ∧ c ∈ Logging.live_channels s
       ∧ ∀ p, Logging.permissions_for s c p = true)
  ∧ (∀ c t d x,
       Logging.Did (Logging.channel_send c (Logging.LogEntry t d)) x ∈ renamed.2.2 →
       old ≠ new
       ∧ t = Logging.ChannelRenamed
       ∧ c ∈ Logging.live_channels s
       ∧ ∀ p, Logging.permissions_for s c p = true).
Proof.
  intros deleted edited renamed. subst deleted edited renamed.
  rewrite on_message_delete_run, on_message_edit_run.
  unfold Logging.on_guild_channel_update.
  split; [|split; [|split; [|split; [|split; [|split; [|split]]]]]].
  - intros ->. reflexivity.
  - intros ->. destruct (Logging.channel_mention m); [|reflexivity].
    apply log_to_channel_post.
  - intros [-> | Hsame]; [reflexivity|].
    rewrite (bool_decide_eq_true_2 _ Hsame). by rewrite orb_true_r.
  - intros -> Hdiff. rewrite (bool_decide_eq_false_2 _ Hdiff). simpl.
    destruct (Logging.channel_mention before); [|reflexivity].
    apply log_to_channel_post.
  - destruct (bool_decide (old ≠ new)); [|done]. apply log_to_channel_post.
  - intros c t d x Hin.
    destruct (Logging.author_bot m); [by apply elem_of_nil in Hin|].
    destruct (Logging.channel_mention m) as [mention|];
      [|by apply elem_of_nil in Hin].
    apply log_to_channel_post in Hin as (-> & -> & Hlive & Hperms).
    split; [done|]. split; [done|]. split; [by exists mention|done].
  - intros c t d x Hin.
    destruct (Logging.author_bot before);
      [by apply elem_of_nil in Hin|].
    destruct (bool_decide (Logging.content before = Logging.content after)) eqn:Hsame;
      [by apply elem_of_nil in Hin|].
    apply bool_decide_eq_false in Hsame. simpl in Hin.
    destruct (Logging.channel_mention before) as [mention|];
      [|by apply elem_of_nil in Hin].
    apply log_to_channel_post in Hin as (-> & -> & Hlive & Hperms).
    split; [done|]. split; [done|]. split; [done|].
    split; [by exists mention|done].
  - intros c t d x Hin.
    destruct (bool_decide (old ≠ new)) eqn:Hnames;
      [|by apply elem_of_nil in Hin].
    apply bool_decide_eq_true in Hnames.
    apply log_to_channel_post in Hin as (-> & _ & Hlive & Hperms). done.
Qed.

(** ** The other moderation commands *)

Ltac unfold_moderation :=
  cbv beta iota zeta delta
    [Cog.run Cog.bind Cog.ret Cog.raise Cog.try_except Cog.get Cog.modify
     Cog.note Cog.await Cog.now Cog.lift Cog.shift Moderation.check
     bind ret raise try_except get modify position ask await
     config_get_moderation_enabled
     set_journal whispers _active_whispers cfg_whisper_channel
     cfg_whisper_enabled cfg_moderation_enabled channels journal
     fst snd length app List.map].

Ltac exec_moderation tac :=
  unfold_moderation;
  repeat (progress (repeat (progress (simpl; try tac));
                    try match goal with
                        | |- context [match raises ?o ?k with Some _ => _ | None => _ end] =>
                            let E := fresh "Hcall" in destruct (raises o k) eqn:E
                        end)).

(** Case analysis on what the permission check and the commands read. *)
Ltac read_moderation :=
  match goal with
  | |- context [default true (?m !! ?g)] => destruct (m !! g) as [[|]|] eqn:?
  | |- context [kick_members ?p || ban_members ?p] =>
      destruct (kick_members p || ban_members p) eqn:?
  | |- context [Moderation.me_moderate_members ?k] =>
      destruct (Moderation.me_moderate_members k) eqn:?
  | |- context [Moderation.me_manage_messages ?k] =>
      destruct (Moderation.me_manage_messages k) eqn:?
  | |- context [Moderation.in_text_channel ?i ?k] =>
      destruct (Moderation.in_text_channel i k) eqn:?
  | |- context [?a <=? ?b] => destruct (Z.leb_spec a b)
  | |- context [?a <? ?b] => destruct (Z.ltb_spec a b)
  | |- context [is_forbidden ?e] => destruct e
  | |- context [match ?e with
                | Forbidden => _ | NotFound => _ | HTTPException => _ | OtherError => _
                end] => is_var e; destruct e
  end.

(** Membership in a journal that is known, element by element. *)
Ltac each_step H :=
  repeat (apply elem_of_cons in H as [H|H];
          [try discriminate H; try (injection H as ? ? ?; subst)|]);
  try (by apply elem_of_nil in H).

(** X26. Under every script, [mute] times a member out only for a caller
    the permission check lets through, when the bot holds
    [moderate_members], the duration is between 1 and 40320 minutes and the
    member's top role is strictly below the bot's. The time-out then ends
    [duration] minutes after the clock was read, that is between one minute
    and 28 days later. The moderation log is written only after the
    time-out went through, and the moderator is told of the mute only after
    both went through. *)
Theorem mute_only_within_bounds
    (i : interaction) (k : Moderation.mute_context) (duration : Z)
    (o : script) (w : world) :
  let j := (Cog.run (Moderation.mute i k duration) o w).2.2 in
  (∀ u until x,
     Moderation.Did (Moderation.member_timeout u until) x ∈ j →
     (Cog.run (Moderation.check i) o w).1 = Returned true
     ∧ Moderation.me_moderate_members k = true
     ∧ 1 ≤ duration ≤ 40320
     ∧ Moderation.member_top_role k < Moderation.me_top_role k
     ∧ u = Moderation.member_id k
     ∧ ∃ n : nat, until = utcnow o n + 60 * duration
                  ∧ 60 ≤ until - utcnow o n ≤ 28 * 24 * 60 * 60)
  ∧ (existsb (Moderation.did Moderation.is_log) j = true →
     existsb (Moderation.done Moderation.is_timeout) j = true)
  ∧ (existsb (Moderation.done Moderation.is_success) j = true →
     existsb (Moderation.done Moderation.is_timeout) j = true
     ∧ existsb (Moderation.done Moderation.is_log) j = true).
Proof.
  unfold Moderation.mute, Moderation.check, _check_mod_permissions.
  destruct w as [rows cache c1 c2 c3 chs j0].
  destruct (guild i) as [g|];
    [|exec_moderation idtac;
      (split; [intros u until x Hin; each_step Hin|split; [discriminate|discriminate]])].
  destruct (user i) as [uid|uid p];
    [exec_moderation idtac;
     (split; [intros u until x Hin; each_step Hin|split; [discriminate|discriminate]])|].
  destruct (administrator p || manage_guild p) eqn:Hp;
    exec_moderation ltac:(try read_moderation);
    (split; [intros u until x Hin; each_step Hin|
             split; [first [discriminate|reflexivity]|
                     first [discriminate|split; reflexivity]]]);
    (split; [reflexivity|]); (split; [reflexivity|]); (split; [lia|]);
    (split; [lia|]); (split; [reflexivity|]);
    eexists; (split; [reflexivity|lia]).
Qed.

(** X27. Under every script, [unban] lifts a ban only when the bot holds
    [ban_members] and the ban look-up went through. When the look-up
    answers that there is no such ban, nothing is unbanned or logged and
    the command tries to tell the moderator that the user is not banned.
    The moderation log is written only after the unban went through, and
    the moderator is told of the unban only after both went through. *)
Theorem unban_checks_the_ban
    (i : interaction) (me_ban_members : bool) (u : Z) (o : script) (w : world) :
  let j := (Cog.run (Moderation.unban i me_ban_members u) o w).2.2 in
  (existsb (Moderation.did Moderation.is_unban) j = true →
     (Cog.run (Moderation.check i) o w).1 = Returned true
     ∧ me_ban_members = true
     ∧ existsb (Moderation.done Moderation.is_fetch_ban) j = true)
  ∧ (existsb Moderation.ban_not_found j = true →
     existsb (Moderation.did Moderation.is_unban) j = false
     ∧ existsb (Moderation.did Moderation.is_log) j = false
     ∧ existsb (Moderation.did Moderation.is_not_banned) j = true)
  ∧ (existsb (Moderation.did Moderation.is_log) j = true →
     existsb (Moderation.done Moderation.is_unban) j = true)
  ∧ (existsb (Moderation.done Moderation.is_success) j = true →
     existsb (Moderation.done Moderation.is_unban) j = true
     ∧ existsb (Moderation.done Moderation.is_log) j = true).
Proof.
  unfold Moderation.unban, Moderation.check, _check_mod_permissions.
  destruct w as [rows cache c1 c2 c3 chs j0].
  destruct (guild i) as [g|];
    [|exec_moderation idtac; repeat split; discriminate].
  destruct (user i) as [uid|uid p];
    [exec_moderation idtac; repeat split; discriminate|].
  destruct me_ban_members;
    destruct (administrator p || manage_guild p) eqn:Hp;
    exec_moderation ltac:(try read_moderation);
    repeat split; first [discriminate|reflexivity].
Qed.

(** X28. Under every script, [purge] deletes messages only for a caller
    the permission check lets through, when the bot holds
    [manage_messages], the limit is between 1 and 100, the command was
    given in a text channel and the response was deferred. Every refusal is
    a direct response, and once the response is deferred every answer is a
    follow-up. The moderation log is written only after the purge went
    through, and the count is reported only after both went through. *)
Theorem purge_only_within_bounds
    (i : interaction) (k : Moderation.purge_context) (limit : Z)
    (o : script) (w : world) :
  let j := (Cog.run (Moderation.purge i k limit) o w).2.2 in
  (existsb (Moderation.did Moderation.is_purge) j = true →
     (Cog.run (Moderation.check i) o w).1 = Returned true
     ∧ Moderation.me_manage_messages k = true
     ∧ 1 ≤ limit ≤ 100
     ∧ Moderation.in_text_channel i k = true
     ∧ existsb (Moderation.done Moderation.is_defer) j = true)
  ∧ (existsb (Moderation.did Moderation.is_defer) j = true →
     existsb (Moderation.did Moderation.is_response) j = false)
  ∧ (existsb (Moderation.did Moderation.is_defer) j = false →
     existsb (Moderation.did Moderation.is_followup) j = false)
  ∧ (existsb (Moderation.did Moderation.is_log) j = true →
     existsb (Moderation.done Moderation.is_purge) j = true)
  ∧ (existsb (Moderation.done Moderation.is_success) j = true →
     existsb (Moderation.done Moderation.is_purge) j = true
     ∧ existsb (Moderation.done Moderation.is_log) j = true).
Proof.
  unfold Moderation.purge, Moderation.check, _check_mod_permissions.
  destruct w as [rows cache c1 c2 c3 chs j0].
  destruct (guild i) as [g|];
    [|exec_moderation idtac; repeat split; discriminate].
  destruct (user i) as [uid|uid p];
    [exec_moderation idtac; repeat split; discriminate|].
  destruct (administrator p || manage_guild p) eqn:Hp;
    exec_moderation ltac:(try read_moderation);
    repeat split; first [discriminate|reflexivity|lia].
Qed.

(** ** The settings command *)

Ltac unfold_settings :=
  cbv beta iota zeta delta
    [Cog.run Cog.bind Cog.ret Cog.raise Cog.try_except Cog.get Cog.modify
     Cog.note Cog.await Cog.now Cog.lift Cog.shift
     run bind ret raise try_except get modify position ask await cached
     config_get_whisper_enabled config_get_whisper_channel
     config_set_whisper_channel config_set_whisper_enabled
     guild_get_channel guild_create_text_channel durable
     set_journal set_cfg_whisper_channel set_cfg_whisper_enabled set_channels
     whispers _active_whispers cfg_whisper_channel
     cfg_whisper_enabled cfg_moderation_enabled channels journal
     fst snd length app List.map].

Ltac exec_settings tac :=
  unfold_settings;
  repeat (progress (repeat (progress (simpl; try tac));
                    try match goal with
                        | |- context [match raises ?o ?k with Some _ => _ | None => _ end] =>
                            let E := fresh "Hcall" in destruct (raises o k) eqn:E
                        end)).

(** Case analysis on what the settings command reads, a value just written
    being read back. *)
Ltac read_settings :=
  first [ rewrite lookup_insert_eq
        | match goal with
          | |- context [default true (?m !! ?g)] => destruct (m !! g) as [[|]|] eqn:?
          | |- context [match ?m !! ?g with Some _ => _ | None => _ end] =>
              destruct (m !! g) eqn:?
          | |- context [bool_decide ?P] => destruct (bool_decide P) eqn:?
          end ].

(** X29. Under every script, at most one answer of [setup_whispers]
    reaches the administrator. The settings it shows are those just
    written: the [enabled] value given, or else the stored one with its
    default, and the channel given, or else the stored one. It creates a
    channel only when called with [enabled] true and no channel, in a
    server that had none configured, and only after the settings were
    shown. *)
Theorem setup_whispers_settles
    (i : interaction) (g : Z) (enabled : option bool) (channel : option Z)
    (o : script) (w : world) :
  guild i = Some g →
  let j := (Cog.run (Settings.setup_whispers i enabled channel) o w).2.2 in
  (length (List.filter Settings.delivered j) ≤ 1)%nat
  ∧ (∀ b c x, Settings.Replied (Settings.SettingsShown b c) x ∈ j →
       b = default (default true (cfg_whisper_enabled w !! g)) enabled
       ∧ c = match channel with
             | Some c' => Some c'
             | None => cfg_whisper_channel w !! g
             end)
  ∧ (existsb Settings.created j = true →
       enabled = Some true ∧ channel = None ∧ cfg_whisper_channel w !! g = None
       ∧ ∃ b, Settings.Replied (Settings.SettingsShown b None) None ∈ j).
Proof.
  intros Hg. unfold Settings.setup_whispers, _setup_whisper_channel. rewrite Hg.
  destruct w as [rows cache c1 c2 c3 chs j0].
  destruct enabled as [[|]|]; destruct channel as [c0|];
    exec_settings ltac:(try read_settings);
    (split; [lia|]);
    (split; [intros b c x Hin; each_step Hin; done|]);
    first [discriminate|intros _];
    (split; [reflexivity|]); (split; [reflexivity|]); (split; [done|]);
    eexists; repeat constructor.
Qed.

Lemma setup_whispers_stores_enabled
    (i : interaction) (g : Z) (b : bool) (channel : option Z) (o : script) (w : world) :
  guild i = Some g → raises o 0%nat = None →
  cfg_whisper_enabled (Cog.run (Settings.setup_whispers i (Some b) channel) o w).2.1 !! g
  = Some b.
Proof.
  intros Hg Hset. unfold Settings.setup_whispers, _setup_whisper_channel.
  rewrite Hg. destruct w as [rows cache c1 c2 c3 chs j0].
  destruct b; destruct channel as [c0|];
    exec_settings ltac:(first [rewrite Hset | read_settings]);
    first [reflexivity | by rewrite lookup_insert_eq].
Qed.

Lemma create_whisper_when_disabled (i : interaction) (g : Z) (o : script) (w : world) :
  guild i = Some g → cfg_whisper_enabled w !! g = Some false →
  raises o 0%nat = None → raises o 1%nat = None →
  replies (journal (run (create_whisper i) o w).2) = [WhisperDisabled]
  ∧ durable (run (create_whisper i) o w).2 = durable w.
Proof.
  intros Hg Hoff H0 H1. unfold create_whisper. rewrite Hg.
  destruct w as [rows cache c1 c2 c3 chs j0]. simpl in Hoff.
  unfold_monad. simpl. rewrite H0. simpl. rewrite Hoff. simpl. rewrite H1.
  split; reflexivity.
Qed.

Lemma create_whisper_when_enabled (i : interaction) (g : Z) (o : script) (w : world) :
  guild i = Some g → cfg_whisper_enabled w !! g = Some true →
  raises o 0%nat = None →
  existsb told_disabled (journal (run (create_whisper i) o w).2) = false.
Proof.
  intros Hg Hon H0.
  unfold create_whisper, _setup_whisper_channel, _create_whisper_thread.
  rewrite Hg. destruct w as [rows cache c1 c2 c3 chs j0]. simpl in Hon.
  unfold_monad. simpl. rewrite H0. simpl. rewrite Hon.
  exec_with ltac:(try read_world); reflexivity.
Qed.

(** X30. The settings command decides what [create_whisper] does next.
    Once [setup_whispers] got its write of the [enabled] value through,
    whatever fails afterwards, a later [create_whisper] in that server
    whose configuration read goes through tells the user that the feature
    is disabled, and changes nothing, when the value was false, and never
    says so when the value was true. *)
Theorem setup_whispers_switches_create_whisper
    (i i' : interaction) (g : Z) (b : bool) (channel : option Z)
    (o o' : script) (w : world) :
  guild i = Some g → guild i' = Some g →
  raises o 0%nat = None → raises o' 0%nat = None →
  let w1 := (Cog.run (Settings.setup_whispers i (Some b) channel) o w).2.1 in
  let w2 := (run (create_whisper i') o' w1).2 in
  (b = true → existsb told_disabled (journal w2) = false)
  ∧ (b = false → raises o' 1%nat = None →
     replies (journal w2) = [WhisperDisabled] ∧ durable w2 = durable w1).
Proof.
  intros Hg Hg' Hset Hread w1 w2.
  pose proof (setup_whispers_stores_enabled i g b channel o w Hg Hset) as Hstored.
  fold w1 in Hstored. subst w2. split.
  - intros ->. by apply (create_whisper_when_enabled i' g).
  - intros -> Hsend. by apply (create_whisper_when_disabled i' g).
Qed.

(** ** The properties on worked inputs *)

Lemma kick_only_when_allowed_witness :
  (run (_check_mod_permissions moderator_7) quiet at_boot).1 = Returned true
  ∧ me_kick_members member_8 = true
  ∧ member_top_role member_8 < me_top_role member_8.
Proof.
  apply (kick_only_when_allowed moderator_7 member_8 quiet at_boot).
  reflexivity.
Defined.

Lemma kick_survives_undelivered_dm_witness :
  journal (run (kick admin_7 member_8) (failing_at 0 Forbidden) at_boot).2
  = [Called (user_send 8) (Some Forbidden);
     Called (member_kick 8) None;
     Called (log_moderation_action 1 8 7) None;
     Called (response_send_message (MemberKicked false)) None].
Proof.
  apply (kick_survives_undelivered_dm admin_7 1 7 admin_only member_8
           (failing_at 0 Forbidden) at_boot Forbidden);
    reflexivity.
Defined.

Lemma setup_whisper_channel_idempotent_witness :
  (run (_setup_whisper_channel 1) quiet
       (run (_setup_whisper_channel 1) quiet at_boot).2).1 = Returned (Some 502)
  ∧ durable (run (_setup_whisper_channel 1) quiet
                 (run (_setup_whisper_channel 1) quiet at_boot).2).2
    = durable (run (_setup_whisper_channel 1) quiet at_boot).2
  ∧ existsb creates
      (journal (run (_setup_whisper_channel 1) quiet
                    (run (_setup_whisper_channel 1) quiet at_boot).2).2) = false.
Proof.
  apply (setup_whisper_channel_idempotent 1 502 quiet quiet at_boot);
    reflexivity.
Defined.

Lemma create_whisper_commit_witness :
  ∃ chan T now,
    Called (create_thread chan 9 T) None
      ∈ journal (run (create_whisper from_user_9) quiet loaded_world).2
    ∧ whispers (run (create_whisper from_user_9) quiet loaded_world).2
      = whispers loaded_world ++ [WhisperRow 1 9 T now None true]
    ∧ lookup (run (create_whisper from_user_9) quiet loaded_world).2 1 9 = Some T.
Proof.
  pose proof (create_whisper_commit from_user_9 1 quiet loaded_world eq_refl)
    as [Hdone _].
  apply Hdone. reflexivity.
Defined.

Lemma close_whisper_commit_witness :
  ∃ owner now,
    select_open_owner 1 50 (whispers loaded_world) = Some owner
    ∧ whispers (run (close_whisper (in_thread_50 (Member 7 no_permissions)))
                    quiet loaded_world).2
      = update_closed 1 50 now (whispers loaded_world)
    ∧ lookup (run (close_whisper (in_thread_50 (Member 7 no_permissions)))
                  quiet loaded_world).2 1 owner = None.
Proof.
  pose proof (close_whisper_commit (in_thread_50 (Member 7 no_permissions)) 1 50
                quiet loaded_world eq_refl eq_refl) as [Hdone _].
  apply Hdone. reflexivity.
Defined.

Lemma others_are_untouched_witness :
  lookup (run (create_whisper from_user_9) quiet loaded_world).2 1 7
  = lookup loaded_world 1 7.
Proof.
  pose proof (others_are_untouched from_user_9 1 quiet loaded_world eq_refl)
    as [Hopened _].
  apply Hopened. discriminate.
Defined.

Lemma closed_at_stays_matched_witness :
  closed_at_matches (whispers (run (create_whisper from_user_9) quiet at_boot).2)
  ∧ closed_at_matches
      (whispers (run (close_whisper (in_thread_50 (Member 7 no_permissions)))
                     quiet at_boot).2).
Proof.
  split.
  - apply (closed_at_stays_matched from_user_9 quiet at_boot).
    intros r H. simpl in H. each_row H; split; intros E; (reflexivity || discriminate E).
  - apply (closed_at_stays_matched (in_thread_50 (Member 7 no_permissions))
             quiet at_boot).
    intros r H. simpl in H. each_row H; split; intros E; (reflexivity || discriminate E).
Defined.

Lemma cog_load_idempotent_witness :
  _active_whispers (run (cog_load [1]) quiet loaded_world).2
  = _active_whispers loaded_world.
Proof.
  apply (cog_load_idempotent [1] quiet quiet at_boot quiet_calm quiet_calm).
Defined.

Lemma open_close_open_witness :
  ∃ T1 T2 at1 at2 at3,
    let w1 := (run (create_whisper from_user_9) quiet loaded_world).2 in
    let w2 :=
      (run (close_whisper (Interaction (Some 1) (user from_user_9) (Thread T1)))
           quiet w1).2 in
    let w3 := (run (create_whisper from_user_9) quiet w2).2 in
    lookup w1 1 9 = Some T1
    ∧ lookup w2 1 9 = None
    ∧ lookup w3 1 9 = Some T2
    ∧ whispers w3
      = whispers loaded_world ++ [WhisperRow 1 9 T1 at1 (Some at2) false;
                                  WhisperRow 1 9 T2 at3 None true].
Proof.
  apply (open_close_open from_user_9 1 9 no_permissions quiet quiet quiet
           loaded_world eq_refl eq_refl eq_refl eq_refl).
  - intros k r H. change (whispers loaded_world) with (whispers at_boot) in H.
    simpl in H. each_row H; simpl; lia.
  - exact quiet_calm.
  - exact quiet_calm.
  - exact quiet_calm.
Defined.

Lemma get_log_channel_miss_witness :
  (Cog.run (Logging.get_log_channel 1) quiet logged_cog).2.2
  = [Logging.Did (Logging.get_guild_data 1) None].
Proof.
  pose proof (get_log_channel_miss 1 quiet logged_cog) as Hmiss.
  apply Hmiss. intros c H. discriminate H.
Defined.

Lemma set_then_get_log_channel_witness :
  Cog.run (Logging.get_log_channel 1) quiet
          (Cog.run (Logging.set_log_channel 1 30) quiet logged_cog).2.1
  = (Returned (Some 30),
     ((Cog.run (Logging.set_log_channel 1 30) quiet logged_cog).2.1, [])).
Proof.
  apply (set_then_get_log_channel 1 30 quiet quiet logged_cog).
  - reflexivity.
  - reflexivity.
Defined.

Lemma log_to_channel_reports_missing_permissions_witness :
  Cog.run (Logging.log_to_channel (Some guild_1) Logging.MessageDeleted (lit "gone"))
          quiet no_embed_cog
  = (Returned tt,
     (no_embed_cog,
      [Logging.Did (Logging.channel_send 31
                      (Logging.PermissionError 30 [Logging.embed_links])) None])).
Proof.
  apply (log_to_channel_reports_missing_permissions guild_1 Logging.MessageDeleted
           (lit "gone") 30 quiet no_embed_cog).
  - reflexivity.
  - reflexivity.
  - discriminate.
Defined.

Lemma load_log_channels_loads_witness :
  (∀ g, Logging.log_channels
          (Cog.run (Logging.load_log_channels [1; 2]) quiet logged_cog).2.1 !! g
        = if decide (g ∈ [1; 2])
          then match Logging.wanted logged_cog g with
               | Some c => Some c
               | None => Logging.log_channels logged_cog !! g
               end
          else Logging.log_channels logged_cog !! g)
  ∧ ∃ failed,
      last (Cog.run (Logging.load_log_channels [1; 2]) quiet logged_cog).2.2
      = Some (Logging.Printed 1 failed).
Proof.
  apply (load_log_channels_loads [1; 2] quiet logged_cog quiet_calm eq_refl).
Defined.

Lemma setup_whispers_settles_witness :
  existsb Settings.created
    (Cog.run (Settings.setup_whispers admin_7 (Some true) None) quiet at_boot).2.2 = true
  ∧ ∃ b, Settings.Replied (Settings.SettingsShown b None) None
         ∈ (Cog.run (Settings.setup_whispers admin_7 (Some true) None) quiet at_boot).2.2.
Proof.
  split; [reflexivity|].
  pose proof (setup_whispers_settles admin_7 1 (Some true) None quiet at_boot eq_refl)
    as (_ & _ & Hcreated).
  apply Hcreated. reflexivity.
Defined.

Lemma setup_whispers_switches_create_whisper_witness :
  replies (journal (run (create_whisper from_user_9) quiet
                        (Cog.run (Settings.setup_whispers admin_7 (Some false) None)
                                 quiet loaded_world).2.1).2)
  = [WhisperDisabled]
  ∧ durable (run (create_whisper from_user_9) quiet
                 (Cog.run (Settings.setup_whispers admin_7 (Some false) None)
                          quiet loaded_world).2.1).2
    = durable (Cog.run (Settings.setup_whispers admin_7 (Some false) None)
                       quiet loaded_world).2.1.
Proof.
  pose proof (setup_whispers_switches_create_whisper admin_7 from_user_9 1 false None
                quiet quiet loaded_world eq_refl eq_refl eq_refl eq_refl) as [_ Hoff].
  apply Hoff; reflexivity.
Defined.
